(** * follow_waypoints: the waypoint queue and its dispatch loop

    A shallow embedding of [src/follow_waypoints/follow_waypoints.py]
    (class [Commander] and the helpers [toPoseArray], [toPoseWithCov]).

    - ROS messages are records, one module per message type, with the
      field names of the message definitions; [float64] fields are
      binary64 floats.
    - The node object is the record [Commander]; the parameter server,
      the node, the calls other threads make while the loop is blocked and
      the trace of calls into rospy, actionlib and [time] form the [World].
    - Methods are computations in a state-and-exception monad [M]; an
      exception leaves the mutations made before it in place, as in Python.
    - Calls into libraries ([rospy.loginfo], [Publisher.publish],
      [SimpleActionClient.send_goal], [wait_for_result], [time.sleep]) are
      recorded in the trace with their arguments. *)

From Stdlib Require Import PrimFloat ZArith List Ascii String Lia.
From stdpp Require Import base option list gmap strings.
Import ListNotations.

Local Open Scope string_scope.
Local Open Scope list_scope.

(** ** Messages *)

Module Time.
Record t : Type := mk { secs : Z; nsecs : Z }.
Definition new : t := mk 0 0.
End Time.

Module Header.
Record t : Type := mk { seq : Z; stamp : Time.t; frame_id : string }.
Definition new : t := mk 0 Time.new "".
Definition with_frame_id (h : t) (f : string) : t := mk (seq h) (stamp h) f.
End Header.

Module Point.
Record t : Type := mk { x : float; y : float; z : float }.
Definition new : t := mk 0 0 0.
End Point.

Module Quaternion.
Record t : Type := mk { x : float; y : float; z : float; w : float }.
Definition new : t := mk 0 0 0 0.
End Quaternion.

Module Pose.
Record t : Type := mk { position : Point.t; orientation : Quaternion.t }.
Definition new : t := mk Point.new Quaternion.new.
End Pose.

Module PoseWithCovariance.
Record t : Type := mk { pose : Pose.t; covariance : list float }.
Definition new : t := mk Pose.new (repeat 0%float 36).
End PoseWithCovariance.

Module PoseWithCovarianceStamped.
Record t : Type := mk { header : Header.t; pose : PoseWithCovariance.t }.
Definition new : t := mk Header.new PoseWithCovariance.new.
End PoseWithCovarianceStamped.

Module PointStamped.
Record t : Type := mk { header : Header.t; point : Point.t }.
End PointStamped.

Module PoseStamped.
Record t : Type := mk { header : Header.t; pose : Pose.t }.
Definition new : t := mk Header.new Pose.new.
End PoseStamped.

Module PoseArray.
Record t : Type := mk { header : Header.t; poses : list Pose.t }.
Definition new : t := mk Header.new [].
End PoseArray.

Module MoveBaseGoal.
Record t : Type := mk { target_pose : PoseStamped.t }.
Definition new : t := mk PoseStamped.new.
End MoveBaseGoal.

Module GoalID.
Record t : Type := mk { stamp : Time.t; id : string }.
Definition new : t := mk Time.new "".
End GoalID.

(** ** The parameter server

    [rospy.get_param(name, default)] resolves [name] against the node
    ([rospy.init_node("follow_waypoints")], root namespace) and returns the
    stored value, or [default] when the key is absent.  A name that starts
    with [~] is private to the node, a name that starts with [/] is global,
    any other name is relative to the node's namespace.  The server holds
    typed values: strings, floats and booleans. *)

Definition node_namespace : string := "/".
Definition node_name : string := "follow_waypoints".

Definition resolve_name (name : string) : string :=
  match name with
  | String "~"%char rest => node_namespace ++ node_name ++ "/" ++ rest
  | String "/"%char _ => name
  | _ => node_namespace ++ name
  end.

Record ParamServer : Type := mkParams {
  str_params : gmap string string;
  float_params : gmap string float;
  bool_params : gmap string bool
}.

Definition no_params : ParamServer := mkParams ∅ ∅ ∅.

Definition get_param_str (ps : ParamServer) (name dflt : string) : string :=
  default dflt (str_params ps !! resolve_name name).

Definition get_param_float (ps : ParamServer) (name : string) (dflt : float) : float :=
  default dflt (float_params ps !! resolve_name name).

Definition get_param_bool (ps : ParamServer) (name : string) (dflt : bool) : bool :=
  default dflt (bool_params ps !! resolve_name name).

(** [rosparam set name value], for a string value. *)
Definition set_param_str (ps : ParamServer) (name value : string) : ParamServer :=
  mkParams (<[resolve_name name := value]> (str_params ps))
           (float_params ps) (bool_params ps).

(** ** The trace of library calls *)

Inductive LogLevel : Type := INFO | WARN.

(** A log line: a literal text, or one of the four format strings of the
    source with its arguments. *)
Inductive LogMsg : Type :=
| Text (s : string)
| AddedWaypoint (x y : float) (n : nat)
| ExecutingGoal (x y : float)
| FollowingPath (n : nat)
| WaitingFor (secs : float).

Inductive Message : Type :=
| MPoseArray (pa : PoseArray.t)
| MGoalID (g : GoalID.t).

Inductive Event : Type :=
| InitNode (name : string)
| WaitForServer
| Log (lvl : LogLevel) (m : LogMsg)
| Publish (topic : string) (m : Message)
| SendGoal (g : MoveBaseGoal.t)
| WaitForResult
| Sleep (secs : float).

(** ** Helper functions of the source *)

(** [toPoseArray(waypoints)]: the frame id is read from the parameter
    server, under the private name, at every call. *)
Definition toPoseArray (ps : ParamServer) (waypoints : list PoseWithCovarianceStamped.t)
  : PoseArray.t :=
  PoseArray.mk
    (Header.with_frame_id (PoseArray.header PoseArray.new)
       (get_param_str ps "~goal_frame_id" "map"))
    (map (fun pose => PoseWithCovariance.pose (PoseWithCovarianceStamped.pose pose))
       waypoints).

(** [toPoseWithCov(point)]. *)
Definition toPoseWithCov (point : PointStamped.t) : PoseWithCovarianceStamped.t :=
  let pose := PoseWithCovarianceStamped.new in
  let angle := Quaternion.mk 0 0 0 1 in
  PoseWithCovarianceStamped.mk
    (PointStamped.header point)
    (PoseWithCovariance.mk
       (Pose.mk (PointStamped.point point) angle)
       (PoseWithCovariance.covariance (PoseWithCovarianceStamped.pose pose))).

(** ** The node object and the world around it *)

(** The attributes [Commander.__init__] sets.  The action client, the tf
    listeners, the services, the publisher and the subscriber are handles
    into the libraries; of the subscriber the node keeps which callback it
    was wired to ([waypoints_are_poses]). *)
Record Commander : Type := mkCommander {
  frame_id : string;
  odom_frame_id : string;
  base_frame_id : string;
  wait_duration : float;
  distance_tolerance : float;
  waypoints_to_follow_topic : string;
  waypoints_list_topic : string;
  waypoints_are_poses : bool;
  waypoints : list PoseWithCovarianceStamped.t;
  path_ready : bool
}.

Definition set_waypoints (l : list PoseWithCovarianceStamped.t) (c : Commander) : Commander :=
  mkCommander (frame_id c) (odom_frame_id c) (base_frame_id c) (wait_duration c)
    (distance_tolerance c) (waypoints_to_follow_topic c) (waypoints_list_topic c)
    (waypoints_are_poses c) l (path_ready c).

Definition set_path_ready (b : bool) (c : Commander) : Commander :=
  mkCommander (frame_id c) (odom_frame_id c) (base_frame_id c) (wait_duration c)
    (distance_tolerance c) (waypoints_to_follow_topic c) (waypoints_list_topic c)
    (waypoints_are_poses c) (waypoints c) b.

(** What another thread does while the loop thread is blocked: rospy runs
    the subscriber callback and the two service handlers in threads of
    their own, and an operator may change the parameter server. *)
Inductive EnvAction : Type :=
| EnvPose (pose : PoseWithCovarianceStamped.t)
| EnvPoint (point : PointStamped.t)
| EnvPathReady
| EnvPathReset
| EnvSetParam (name value : string).

(** [pending] lists, for each blocking call the loop thread will make
    ([time.sleep], [wait_for_result]), the actions the other threads
    perform during it; once the list is used up nothing else happens. *)
Record World : Type := mkWorld {
  params : ParamServer;
  node : Commander;
  pending : list (list EnvAction);
  trace : list Event
}.

(** No other thread acts during the next [n] blocking calls. *)
Definition quiet_schedule (n : nat) (sched : list (list EnvAction)) : Prop :=
  Forall (fun acts => acts = []) (take n sched).

Definition quiet_during (n : nat) (w : World) : Prop := quiet_schedule n (pending w).

(** Nobody arms the node: [path_ready] is never called. *)
Definition no_arm (sched : list (list EnvAction)) : Prop :=
  Forall (Forall (fun a => a <> EnvPathReady)) sched.

(** ** The monad of methods *)

Inductive Exn : Type :=
| NotImplementedError (msg : string)
| IndexError (msg : string)
| ValueError (msg : string)
| OverflowError (msg : string).

(** [OutOfFuel] is not a Python outcome: it marks a [while] loop cut off
    by the bound of the model. *)
Inductive Outcome (A : Type) : Type :=
| Returned (a : A)
| Raised (e : Exn)
| OutOfFuel.

Arguments Returned {A} a.
Arguments Raised {A} e.
Arguments OutOfFuel {A}.

Definition M (A : Type) : Type := World -> Outcome A * World.

#[export] Instance M_ret : MRet M := fun A a w => (Returned a, w).

#[export] Instance M_bind : MBind M := fun A B f m w =>
  match m w with
  | (Returned a, w') => f a w'
  | (Raised e, w') => (Raised e, w')
  | (OutOfFuel, w') => (OutOfFuel, w')
  end.

Definition raise {A : Type} (e : Exn) : M A := fun w => (Raised e, w).

Definition out_of_fuel {A : Type} : M A := fun w => (OutOfFuel, w).

Definition gets {A : Type} (f : Commander -> A) : M A :=
  fun w => (Returned (f (node w)), w).

Definition modify (f : Commander -> Commander) : M unit :=
  fun w => (Returned tt, mkWorld (params w) (f (node w)) (pending w) (trace w)).

Definition emit (e : Event) : M unit :=
  fun w => (Returned tt, mkWorld (params w) (node w) (pending w) (trace w ++ [e])).

Definition info (m : LogMsg) : M unit := emit (Log INFO m).
Definition warn (m : LogMsg) : M unit := emit (Log WARN m).

(** [toPoseArray] as a call: it reads the parameter server of the moment. *)
Definition call_toPoseArray (wps : list PoseWithCovarianceStamped.t) : M PoseArray.t :=
  fun w => (Returned (toPoseArray (params w) wps), w).

(** [self.pose_array_publisher.publish(msg)]. *)
Definition pose_array_publisher_publish (msg : PoseArray.t) : M unit :=
  topic ← gets waypoints_list_topic;
  emit (Publish topic (MPoseArray msg)).

(** [self.waypoints.pop(0)]. *)
Definition waypoints_pop0 : M PoseWithCovarianceStamped.t :=
  l ← gets waypoints;
  match l with
  | [] => raise (IndexError "pop from empty list")
  | goal :: rest => _ ← modify (set_waypoints rest); mret goal
  end.

(** ** Commander: construction, callbacks and services *)

(** [Commander.__init__]: the attributes read off the parameter server. *)
Definition __init__ (ps : ParamServer) : Commander :=
  mkCommander
    (get_param_str ps "goal_frame_id" "map")
    (get_param_str ps "odom_frame_id" "odom")
    (get_param_str ps "base_frame_id" "base_footprint")
    (get_param_float ps "wait_duration" 0)
    (get_param_float ps "waypoint_distance_tolerance" 0)
    (get_param_str ps "waypoints_to_follow_topic" "/initialpose")
    (get_param_str ps "waypoints_list_topic" "/waypoints")
    (get_param_bool ps "waypoints_are_poses" true)
    []
    false.

(** The world once [Commander()] has returned. *)
Definition startup (ps : ParamServer) (sched : list (list EnvAction)) : World :=
  mkWorld ps (__init__ ps) sched
    [InitNode "follow_waypoints";
     Log INFO (Text "Connecting to move_base...");
     WaitForServer;
     Log INFO (Text "Connected to move_base.")].

Definition make_path_ready : M (bool * string) :=
  _ ← modify (set_path_ready true);
  mret (true, "").

Definition do_path_reset : M (bool * string) :=
  _ ← warn (Text "Issuing cancel command to move_base");
  _ ← emit (Publish "/move_base/cancel" (MGoalID GoalID.new));
  _ ← warn (Text "move_base goal cancelled.");
  l ← gets waypoints;
  _ ← match l with
      | [] => mret tt
      | _ :: _ =>
          _ ← modify (set_waypoints []);
          l' ← gets waypoints;
          msg ← call_toPoseArray l';
          pose_array_publisher_publish msg
      end;
  mret (true, "").

Definition point_cb (point : PointStamped.t) : M unit :=
  l ← gets waypoints;
  _ ← modify (set_waypoints (l ++ [toPoseWithCov point]));
  l' ← gets waypoints;
  msg ← call_toPoseArray l';
  _ ← pose_array_publisher_publish msg;
  n ← gets (fun c => length (waypoints c));
  info (AddedWaypoint (Point.x (PointStamped.point point))
          (Point.y (PointStamped.point point)) n).

Definition pose_cb (pose : PoseWithCovarianceStamped.t) : M unit :=
  l ← gets waypoints;
  _ ← modify (set_waypoints (l ++ [pose]));
  l' ← gets waypoints;
  msg ← call_toPoseArray l';
  _ ← pose_array_publisher_publish msg;
  n ← gets (fun c => length (waypoints c));
  let position := Pose.position (PoseWithCovariance.pose (PoseWithCovarianceStamped.pose pose)) in
  info (AddedWaypoint (Point.x position) (Point.y position) n).

Definition send_move_base_goal (pose : PoseWithCovarianceStamped.t) : M unit :=
  let goal := MoveBaseGoal.new in
  f ← gets frame_id;
  let p := PoseWithCovariance.pose (PoseWithCovarianceStamped.pose pose) in
  let goal :=
    MoveBaseGoal.mk
      (PoseStamped.mk
         (Header.with_frame_id (PoseStamped.header (MoveBaseGoal.target_pose goal)) f)
         (Pose.mk (Pose.position p) (Pose.orientation p))) in
  _ ← info (ExecutingGoal (Point.x (Pose.position p)) (Point.y (Pose.position p)));
  emit (SendGoal goal).

(** ** Blocking calls and the other threads *)

(** A callback run by one of rospy's threads: neither its result nor an
    exception of its own reaches the loop thread. *)
Definition in_other_thread {A : Type} (m : M A) : M unit :=
  fun w => (Returned tt, snd (m w)).

(** The subscriber is created for one message type and one callback:
    [pose_cb] when [waypoints_are_poses], [point_cb] otherwise; a message
    of the other type is not delivered. *)
Definition env_step (a : EnvAction) : M unit :=
  match a with
  | EnvPose pose =>
      b ← gets waypoints_are_poses;
      if (b : bool) then in_other_thread (pose_cb pose) else mret tt
  | EnvPoint point =>
      b ← gets waypoints_are_poses;
      if (b : bool) then mret tt else in_other_thread (point_cb point)
  | EnvPathReady => in_other_thread make_path_ready
  | EnvPathReset => in_other_thread do_path_reset
  | EnvSetParam name value =>
      fun w => (Returned tt,
                mkWorld (set_param_str (params w) name value) (node w) (pending w) (trace w))
  end.

Fixpoint env_steps (acts : list EnvAction) : M unit :=
  match acts with
  | [] => mret tt
  | a :: rest => _ ← env_step a; env_steps rest
  end.

Definition next_pending : M (list EnvAction) :=
  fun w =>
    match pending w with
    | [] => (Returned [], w)
    | acts :: rest => (Returned acts, mkWorld (params w) (node w) rest (trace w))
    end.

(** A blocking library call: recorded, then the other threads run. *)
Definition blocking (e : Event) : M unit :=
  _ ← emit e;
  acts ← next_pending;
  env_steps acts.

(** [time.sleep(secs)] of CPython 3 converts the float to a number of
    nanoseconds and refuses what it cannot sleep for: NaN, a duration
    outside the 64-bit range of nanoseconds (the infinities among them),
    and a negative duration.  [sleep_error] is the exception raised, if
    any. *)
Definition sleep_error (secs : float) : option Exn :=
  if PrimFloat.is_nan secs then
    Some (ValueError "Invalid value NaN (not a number)")
  else if negb (PrimFloat.leb (-9223372036854775808) (secs * 1000000000)
                && PrimFloat.ltb (secs * 1000000000) 9223372036854775808) then
    Some (OverflowError "timestamp too large to convert to C _PyTime_t")
  else if PrimFloat.ltb secs 0 then
    Some (ValueError "sleep length must be non-negative")
  else None.

Definition time_sleep (secs : float) : M unit :=
  match sleep_error secs with
  | Some e => raise e
  | None => blocking (Sleep secs)
  end.
Definition wait_for_result : M unit := blocking WaitForResult.

(** ** The dispatch loop *)

(** The [while self.waypoints:] loop of [run_once]; [fuel] bounds the
    number of iterations. *)
Fixpoint drain (fuel : nat) : M unit :=
  l ← gets waypoints;
  match l with
  | [] => mret tt
  | _ :: _ =>
      match fuel with
      | O => out_of_fuel
      | S fuel' =>
          goal ← waypoints_pop0;
          _ ← send_move_base_goal goal;
          tol ← gets distance_tolerance;
          if negb (PrimFloat.ltb 0 tol) then
            _ ← wait_for_result;
            d ← gets wait_duration;
            _ ← info (WaitingFor d);
            _ ← time_sleep d;
            l' ← gets waypoints;
            msg ← call_toPoseArray l';
            _ ← pose_array_publisher_publish msg;
            drain fuel'
          else
            raise (NotImplementedError "distance_tolerance not implemented yet.")
      end
  end.

Definition run_once (fuel : nat) : M unit :=
  ready ← gets path_ready;
  if negb ready then time_sleep 1
  else
    l ← gets waypoints;
    match l with
    | [] =>
        _ ← warn (Text "No more waypoints to follow.");
        modify (set_path_ready false)
    | _ :: _ =>
        _ ← info (FollowingPath (length l));
        drain fuel
    end.

(** [run]: [while not rospy.is_shutdown(): self.run_once()], where
    [is_shutdown] answers [False] [iters] times. *)
Fixpoint run (iters fuel : nat) : M unit :=
  match iters with
  | O => mret tt
  | S iters' => _ ← run_once fuel; run iters' fuel
  end.

(** ** Reading a trace *)

Definition sent_goal (e : Event) : option MoveBaseGoal.t :=
  match e with SendGoal g => Some g | _ => None end.

Definition snapshot (e : Event) : option PoseArray.t :=
  match e with Publish _ (MPoseArray pa) => Some pa | _ => None end.

(** What the action client was asked to do, in order. *)
Definition client_call (e : Event) : option Event :=
  match e with
  | SendGoal _ | WaitForResult => Some e
  | _ => None
  end.

Definition sent_goals (tr : list Event) : list MoveBaseGoal.t := omap sent_goal tr.
Definition snapshots (tr : list Event) : list PoseArray.t := omap snapshot tr.
Definition client_calls (tr : list Event) : list Event := omap client_call tr.

(** The value a latched channel holds: the last one published, if any. *)
Definition latched (tr : list Event) : option PoseArray.t := last (snapshots tr).

(** The navigation goal [send_move_base_goal] builds for a waypoint. *)
Definition goal_of (f : string) (pose : PoseWithCovarianceStamped.t) : MoveBaseGoal.t :=
  let p := PoseWithCovariance.pose (PoseWithCovarianceStamped.pose pose) in
  MoveBaseGoal.mk
    (PoseStamped.mk (Header.mk 0 Time.new f) (Pose.mk (Pose.position p) (Pose.orientation p))).

(** A run of [point_cb], one call per message, in arrival order. *)
Fixpoint point_cbs (points : list PointStamped.t) : M unit :=
  match points with
  | [] => mret tt
  | point :: rest => _ ← point_cb point; point_cbs rest
  end.

(** The pose [toPoseWithCov] gives a bare point, as [toPoseArray] shows it. *)
Definition pose_of_point (point : PointStamped.t) : Pose.t :=
  Pose.mk (PointStamped.point point) (Quaternion.mk 0 0 0 1).

(** Outcomes other than [IndexError]. *)
Definition no_index_error {A : Type} (r : Outcome A * World) : Prop :=
  match fst r with
  | Raised (IndexError _) => False
  | _ => True
  end.

(** ** Worlds and traces the properties are stated with *)

(** The three events every Reset produces. *)
Definition reset_events : list Event :=
  [Log WARN (Text "Issuing cancel command to move_base");
   Publish "/move_base/cancel" (MGoalID GoalID.new);
   Log WARN (Text "move_base goal cancelled.")].

(** The exception of the distance-tolerance branch. *)
Definition not_implemented : Exn :=
  NotImplementedError "distance_tolerance not implemented yet.".

(** The world once [run_once] has popped [goal] and sent it. *)
Definition dispatched (goal : PoseWithCovarianceStamped.t)
  (rest : list PoseWithCovarianceStamped.t) (w : World) : World :=
  let position :=
    Pose.position (PoseWithCovariance.pose (PoseWithCovarianceStamped.pose goal)) in
  mkWorld (params w) (set_waypoints rest (node w)) (pending w)
    (trace w ++
     [Log INFO (ExecutingGoal (Point.x position) (Point.y position));
      SendGoal (goal_of (frame_id (node w)) goal)]).

(** The rest of the loop body on the wait-for-completion path. *)
Definition settle (k : M unit) : M unit :=
  _ ← wait_for_result;
  d ← gets wait_duration;
  _ ← info (WaitingFor d);
  _ ← time_sleep d;
  l' ← gets waypoints;
  msg ← call_toPoseArray l';
  _ ← pose_array_publisher_publish msg;
  k.

(** The world in which the [while] loop of [run_once] starts. *)
Definition following (w : World) : World :=
  mkWorld (params w) (node w) (pending w)
    (trace w ++ [Log INFO (FollowingPath (length (waypoints (node w))))]).

(** The world after the settle part of an iteration when nothing happens
    during the two blocking calls. *)
Definition settled (w : World) : World :=
  mkWorld (params w) (node w) (drop 2 (pending w))
    (trace w ++
     [WaitForResult;
      Log INFO (WaitingFor (wait_duration (node w)));
      Sleep (wait_duration (node w));
      Publish (waypoints_list_topic (node w))
        (MPoseArray (toPoseArray (params w) (waypoints (node w))))]).

(** The events of one [while] loop over the queue [q] on that path. *)
Fixpoint drain_events (ps : ParamServer) (f topic : string) (d : float)
  (q : list PoseWithCovarianceStamped.t) : list Event :=
  match q with
  | [] => []
  | goal :: rest =>
      let position :=
        Pose.position (PoseWithCovariance.pose (PoseWithCovarianceStamped.pose goal)) in
      [Log INFO (ExecutingGoal (Point.x position) (Point.y position));
       SendGoal (goal_of f goal);
       WaitForResult;
       Log INFO (WaitingFor d);
       Sleep d;
       Publish topic (MPoseArray (toPoseArray ps rest))]
      ++ drain_events ps f topic d rest
  end.

(** The world after the settle part of an iteration during whose
    [wait_for_result] Reset ran, and nothing else until the queue is
    looked at again. *)
Definition settled_after_reset (sched : list (list EnvAction)) (w : World) : World :=
  mkWorld (params w) (set_waypoints [] (node w)) sched
    (trace w ++ [WaitForResult] ++ reset_events ++
     match waypoints (node w) with
     | [] => []
     | _ :: _ => [Publish (waypoints_list_topic (node w))
                    (MPoseArray (toPoseArray (params w) []))]
     end ++
     [Log INFO (WaitingFor (wait_duration (node w)));
      Sleep (wait_duration (node w));
      Publish (waypoints_list_topic (node w)) (MPoseArray (toPoseArray (params w) []))]).

(** ** Sample data *)

Definition point_at (x y : float) : PointStamped.t :=
  PointStamped.mk Header.new (Point.mk x y 0).

Definition waypoint_at (x y : float) : PoseWithCovarianceStamped.t :=
  toPoseWithCov (point_at x y).

(** A node started with no parameter set. *)
Definition fresh : World := startup no_params [].

(** The world while the loop thread is blocked in [wait_for_result] for
    the only waypoint: one pose was received, the path was made ready, and
    [run_once] has popped the waypoint and sent its goal. *)
Definition in_flight : World :=
  snd ((_ ← pose_cb (waypoint_at 1 1);
        _ ← make_path_ready;
        _ ← info (FollowingPath 1);
        goal ← waypoints_pop0;
        _ ← send_move_base_goal goal;
        emit WaitForResult) fresh).

(** A node started with [goal_frame_id] set to ["odom"]. *)
Definition odom_params : ParamServer := set_param_str no_params "goal_frame_id" "odom".

Definition tolerance_params : ParamServer :=
  mkParams ∅ (<[resolve_name "waypoint_distance_tolerance" := 0.5%float]> ∅) ∅.

(** A node that received two poses and was then armed. *)
Definition armed_with (ps : ParamServer) (sched : list (list EnvAction)) : World :=
  snd ((_ ← pose_cb (waypoint_at 1 1); _ ← pose_cb (waypoint_at 2 2); make_path_ready)
         (startup ps sched)).

Definition armed_with_tolerance : World := armed_with tolerance_params [].

Definition armed : World := armed_with no_params [].

(** A fresh node armed before any waypoint arrived. *)
Definition armed_empty : World := snd (make_path_ready fresh).

(** Nothing happens while the two waypoints are dispatched; after that a
    third pose arrives and then a Reset. *)
Definition busy_after_drain : World :=
  armed_with no_params [[]; []; []; []; [EnvPose (waypoint_at 3 3)]; [EnvPathReset]].

(** Reset arrives during the first [wait_for_result]. *)
Definition reset_in_flight : World := armed_with no_params [[EnvPathReset]; []].

(** Two waypoints queued; a third pose arrives during the first dispatch,
    somebody arms again, and a fourth pose arrives during the second. *)
Definition arrivals_in_flight : World :=
  armed_with no_params
    [[EnvPose (waypoint_at 3 3)]; [EnvPathReady]; []; [EnvPose (waypoint_at 4 4)]].

(** Two waypoints queued and armed; a third pose arrives during the
    first dispatch and nothing else happens. *)
Definition arrival_then_quiet : World :=
  armed_with no_params [[EnvPose (waypoint_at 3 3)]].

(** Two waypoints queued and armed; Reset arrives during the first
    dispatch, and a pose after the loop has gone idle. *)
Definition reset_then_arrival : World :=
  armed_with no_params [[EnvPathReset]; []; [EnvPose (waypoint_at 3 3)]].

(** [busy_after_drain] once its armed iteration has returned. *)
Definition drained : World := snd (run_once 2 busy_after_drain).

(** A node configured with a negative settle duration, two waypoints
    queued and armed. *)
Definition negative_wait_params : ParamServer :=
  mkParams ∅ (<[resolve_name "wait_duration" := (-1)%float]> ∅) ∅.

Definition armed_negative_wait : World := armed_with negative_wait_params [].

(** ** The rest of the program *)

(** [main]: [commander = Commander()] and then [commander.run()], for a
    parameter server, a schedule of the other threads and a number of loop
    iterations before shutdown. *)
Definition main (ps : ParamServer) (sched : list (list EnvAction)) (iters fuel : nat)
  : Outcome unit * World :=
  run iters fuel (startup ps sched).

(** A run of [pose_cb], one call per message, in arrival order. *)
Fixpoint pose_cbs (poses : list PoseWithCovarianceStamped.t) : M unit :=
  match poses with
  | [] => mret tt
  | pose :: rest => _ ← pose_cb pose; pose_cbs rest
  end.

(** The attributes [__init__] reads off the parameter server. *)
Definition config (c : Commander)
  : string * string * string * float * float * string * string * bool :=
  (frame_id c, odom_frame_id c, base_frame_id c, wait_duration c, distance_tolerance c,
   waypoints_to_follow_topic c, waypoints_list_topic c, waypoints_are_poses c).

(** The poses [toPoseArray] shows for a queue. *)
Definition queue_poses (q : list PoseWithCovarianceStamped.t) : list Pose.t :=
  map (fun pose => PoseWithCovariance.pose (PoseWithCovarianceStamped.pose pose)) q.

(** The latched snapshot shows the queue as it is: the same poses in the
    same order, or no snapshot yet and an empty queue. *)
Definition in_sync (w : World) : Prop :=
  match latched (trace w) with
  | Some pa => PoseArray.poses pa = queue_poses (waypoints (node w))
  | None => waypoints (node w) = []
  end.

(** The frame a navigation goal is sent in. *)
Definition goal_frame (g : MoveBaseGoal.t) : string :=
  Header.frame_id (PoseStamped.header (MoveBaseGoal.target_pose g)).

(** The waypoints a schedule can still deliver: one per message on the
    subscribed topic. *)
Definition is_arrival (a : EnvAction) : bool :=
  match a with
  | EnvPose _ | EnvPoint _ => true
  | _ => false
  end.

Fixpoint arrivals (sched : list (list EnvAction)) : nat :=
  match sched with
  | [] => 0
  | acts :: rest => length (List.filter is_arrival acts) + arrivals rest
  end.

(** The world in which [settle] calls [time.sleep]: the goal has been
    waited for and the settle duration logged, whatever the other threads
    did during the wait. *)
Definition waited (w : World) : World :=
  let w1 := snd (wait_for_result w) in
  snd (info (WaitingFor (wait_duration (node w1))) w1).

(** The world [settle] hands to its continuation when [time.sleep]
    accepts the settle duration, whatever the other threads do during the
    two blocking calls. *)
Definition settle_world (w : World) : World :=
  let w1 := waited w in
  let w2 := snd (blocking (Sleep (wait_duration (node w1))) w1) in
  mkWorld (params w2) (node w2) (pending w2)
    (trace w2 ++
     [Publish (waypoints_list_topic (node w2))
        (MPoseArray (toPoseArray (params w2) (waypoints (node w2))))]).

(** The world one pass of the [while] loop leaves, for a queue
    [goal :: rest]: that of the exception when the pass raises (the
    unimplemented branch, or a settle duration [time.sleep] refuses), that
    of the next test of the queue otherwise. *)
Definition after_pass (goal : PoseWithCovarianceStamped.t)
  (rest : list PoseWithCovarianceStamped.t) (w : World) : World :=
  if PrimFloat.ltb 0 (distance_tolerance (node w)) then dispatched goal rest w
  else
    match sleep_error (wait_duration (node w)) with
    | Some _ => waited (dispatched goal rest w)
    | None => settle_world (dispatched goal rest w)
    end.

(** In none of the next [iters] iterations does the loop find itself
    armed with a non-empty queue. *)
Fixpoint finds_no_work (iters fuel : nat) (w : World) : Prop :=
  match iters with
  | O => True
  | S iters' =>
      (path_ready (node w) = false \/ waypoints (node w) = []) /\
      finds_no_work iters' fuel (snd (run_once fuel w))
  end.

(** * Properties *)

(** ** Stepping through the monad *)

Lemma bind_returned {A B : Type} (m : M A) (f : A -> M B) (w w' : World) (a : A) :
  m w = (Returned a, w') -> (m ≫= f) w = f a w'.
Proof. intros H. unfold mbind, M_bind. now rewrite H. Qed.

Lemma bind_raised {A B : Type} (m : M A) (f : A -> M B) (w w' : World) (e : Exn) :
  m w = (Raised e, w') -> (m ≫= f) w = (Raised e, w').
Proof. intros H. unfold mbind, M_bind. now rewrite H. Qed.

Lemma bind_gets {A B : Type} (g : Commander -> A) (f : A -> M B) (w : World) :
  (gets g ≫= f) w = f (g (node w)) w.
Proof. reflexivity. Qed.

Lemma time_sleep_accepts (secs : float) :
  sleep_error secs = None -> time_sleep secs = blocking (Sleep secs).
Proof. intros H. unfold time_sleep. now rewrite H. Qed.

Lemma time_sleep_refuses (secs : float) (e : Exn) :
  sleep_error secs = Some e -> time_sleep secs = raise e.
Proof. intros H. unfold time_sleep. now rewrite H. Qed.

(** Unfold the monad and the state primitives, then compute. *)
Ltac m_unfold :=
  unfold call_toPoseArray, pose_array_publisher_publish, info, warn;
  unfold mbind, M_bind, mret, M_ret, raise, out_of_fuel, gets, modify, emit.

Ltac m_compute := repeat (progress (m_unfold; cbn)); rewrite <- ?app_assoc; cbn.

(** An event is not in an explicit list of events of other shapes. *)
Ltac not_among :=
  let H := fresh in
  intros H;
  repeat (apply elem_of_cons in H; destruct H as [H|H]; [discriminate H|]);
  now apply elem_of_nil in H.

(** ** Reading traces *)

Lemma sent_goals_app (t1 t2 : list Event) :
  sent_goals (t1 ++ t2) = sent_goals t1 ++ sent_goals t2.
Proof. apply omap_app. Qed.

Lemma snapshots_app (t1 t2 : list Event) :
  snapshots (t1 ++ t2) = snapshots t1 ++ snapshots t2.
Proof. apply omap_app. Qed.

Lemma client_calls_app (t1 t2 : list Event) :
  client_calls (t1 ++ t2) = client_calls t1 ++ client_calls t2.
Proof. apply omap_app. Qed.

(** ** Reset *)

(** What [do_path_reset] returns and the world it leaves. *)
Lemma do_path_reset_eq (w : World) :
  do_path_reset w =
  (Returned (true, ""),
   mkWorld (params w) (set_waypoints [] (node w)) (pending w)
     (trace w ++ reset_events ++
      match waypoints (node w) with
      | [] => []
      | _ :: _ => [Publish (waypoints_list_topic (node w))
                     (MPoseArray (toPoseArray (params w) []))]
      end)).
Proof.
  destruct w as [ps c sch tr]. destruct c as [f o b wd tol tin tout mode q ready].
  unfold do_path_reset, reset_events.
  destruct q as [|p q]; m_compute; reflexivity.
Qed.

Lemma make_path_ready_eq (w : World) :
  make_path_ready w =
  (Returned (true, ""),
   mkWorld (params w) (set_path_ready true (node w)) (pending w) (trace w)).
Proof. reflexivity. Qed.

Lemma point_cb_eq (point : PointStamped.t) (w : World) :
  point_cb point w =
  (Returned tt,
   let l := waypoints (node w) ++ [toPoseWithCov point] in
   mkWorld (params w) (set_waypoints l (node w)) (pending w)
     (trace w ++
      [Publish (waypoints_list_topic (node w)) (MPoseArray (toPoseArray (params w) l));
       Log INFO (AddedWaypoint (Point.x (PointStamped.point point))
                   (Point.y (PointStamped.point point)) (length l))])).
Proof.
  destruct w as [ps c sch tr]. unfold point_cb. m_compute. reflexivity.
Qed.

Lemma pose_cb_eq (pose : PoseWithCovarianceStamped.t) (w : World) :
  pose_cb pose w =
  (Returned tt,
   let l := waypoints (node w) ++ [pose] in
   let position :=
     Pose.position (PoseWithCovariance.pose (PoseWithCovarianceStamped.pose pose)) in
   mkWorld (params w) (set_waypoints l (node w)) (pending w)
     (trace w ++
      [Publish (waypoints_list_topic (node w)) (MPoseArray (toPoseArray (params w) l));
       Log INFO (AddedWaypoint (Point.x position) (Point.y position) (length l))])).
Proof.
  destruct w as [ps c sch tr]. unfold pose_cb. m_compute. reflexivity.
Qed.

Lemma send_move_base_goal_eq (pose : PoseWithCovarianceStamped.t) (w : World) :
  send_move_base_goal pose w =
  (Returned tt,
   let position :=
     Pose.position (PoseWithCovariance.pose (PoseWithCovarianceStamped.pose pose)) in
   mkWorld (params w) (node w) (pending w)
     (trace w ++
      [Log INFO (ExecutingGoal (Point.x position) (Point.y position));
       SendGoal (goal_of (frame_id (node w)) pose)])).
Proof.
  destruct w as [ps c sch tr]. unfold send_move_base_goal. m_compute. reflexivity.
Qed.

(** C2, as amended.  For every prior world, Reset returns [(True, "")]
    without raising and leaves the waypoint queue empty.  It publishes one
    visualization snapshot, an empty one, exactly when the queue was
    non-empty before; when the queue was already empty it publishes none,
    so the snapshots published so far are the ones published before. *)
Theorem do_path_reset_clears_queue (w : World) :
  exists w',
    do_path_reset w = (Returned (true, ""), w') /\
    waypoints (node w') = [] /\
    PoseArray.poses (toPoseArray (params w) []) = [] /\
    snapshots (trace w') =
      snapshots (trace w) ++
      match waypoints (node w) with
      | [] => []
      | _ :: _ => [toPoseArray (params w) []]
      end.
Proof.
  eexists. split; [apply do_path_reset_eq|]. cbn [trace node].
  split; [now destruct (node w)|]. split; [reflexivity|].
  rewrite snapshots_app. f_equal.
  destruct (waypoints (node w)); reflexivity.
Qed.

(** C2 as the specification states it fails.  On a node that has never
    received a waypoint, Reset returns with no snapshot published at all;
    and when Reset arrives while the only waypoint is in flight (queue
    already empty), it returns with the latched snapshot still showing that
    waypoint.  So it is not the case that after every Reset the published
    snapshot is an empty one. *)
Lemma do_path_reset_counterexample :
  (waypoints (node fresh) = [] /\
   latched (trace (snd (do_path_reset fresh))) = None) /\
  (waypoints (node in_flight) = [] /\
   option_map PoseArray.poses (latched (trace (snd (do_path_reset in_flight)))) =
     Some [pose_of_point (point_at 1 1)]) /\
  ~ (forall w, exists w' pa,
       do_path_reset w = (Returned (true, ""), w') /\
       waypoints (node w') = [] /\
       latched (trace w') = Some pa /\
       PoseArray.poses pa = []).
Proof.
  split; [split; vm_compute; reflexivity|].
  split; [split; vm_compute; reflexivity|].
  intros H. destruct (H fresh) as (w' & pa & Hrun & _ & Hl & _).
  rewrite do_path_reset_eq in Hrun. inversion Hrun; subst w'. clear Hrun.
  vm_compute in Hl. discriminate Hl.
Qed.

(** [in_flight] is the world in which that Reset runs: an iteration
    during whose [wait_for_result] Reset is called goes through the trace
    of [in_flight], then the three events of Reset and no snapshot, and
    only then the settle part. *)
Lemma reset_runs_in_flight :
  trace (snd (run_once 1
                (snd ((_ ← pose_cb (waypoint_at 1 1); make_path_ready)
                        (startup no_params [[EnvPathReset]]))))) =
  trace in_flight ++ reset_events ++
  [Log INFO (WaitingFor 0); Sleep 0;
   Publish "/waypoints" (MPoseArray (toPoseArray no_params []))].
Proof. vm_compute. reflexivity. Qed.

(** C7.  Reset leaves the armed flag ([path_ready]) as it was, whatever
    its value and whatever the queue holds. *)
Theorem do_path_reset_keeps_path_ready (w : World) :
  path_ready (node (snd (do_path_reset w))) = path_ready (node w) /\
  fst (do_path_reset w) = Returned (true, "").
Proof.
  rewrite do_path_reset_eq. cbn. now destruct (node w).
Qed.

(** ** One iteration of the loop *)

Lemma drain_nil (fuel : nat) (w : World) :
  waypoints (node w) = [] -> drain fuel w = (Returned tt, w).
Proof.
  intros H. destruct fuel; cbn [drain]; rewrite bind_gets, H; reflexivity.
Qed.

Lemma waypoints_pop0_cons (w : World) goal rest :
  waypoints (node w) = goal :: rest ->
  waypoints_pop0 w =
  (Returned goal, mkWorld (params w) (set_waypoints rest (node w)) (pending w) (trace w)).
Proof.
  intros H. unfold waypoints_pop0. rewrite bind_gets, H. reflexivity.
Qed.

(** The loop body up to the test of the tolerance. *)
Lemma drain_dispatch (fuel : nat) (w : World) goal rest :
  waypoints (node w) = goal :: rest ->
  drain (S fuel) w =
  (if negb (PrimFloat.ltb 0 (distance_tolerance (node w)))
   then settle (drain fuel)
   else raise not_implemented) (dispatched goal rest w).
Proof.
  intros Hq. cbn [drain]. rewrite bind_gets, Hq.
  erewrite bind_returned by (apply waypoints_pop0_cons, Hq).
  erewrite bind_returned by apply send_move_base_goal_eq.
  rewrite bind_gets. cbn [node params pending trace].
  replace (distance_tolerance (set_waypoints rest (node w)))
    with (distance_tolerance (node w)) by now destruct (node w).
  replace (frame_id (set_waypoints rest (node w)))
    with (frame_id (node w)) by now destruct (node w).
  reflexivity.
Qed.

Lemma drain_tolerance (fuel : nat) (w : World) goal rest :
  waypoints (node w) = goal :: rest ->
  PrimFloat.ltb 0 (distance_tolerance (node w)) = true ->
  drain (S fuel) w = (Raised not_implemented, dispatched goal rest w).
Proof.
  intros Hq Htol. rewrite (drain_dispatch _ _ _ _ Hq), Htol. reflexivity.
Qed.

Lemma drain_wait (fuel : nat) (w : World) goal rest :
  waypoints (node w) = goal :: rest ->
  PrimFloat.ltb 0 (distance_tolerance (node w)) = false ->
  drain (S fuel) w = settle (drain fuel) (dispatched goal rest w).
Proof.
  intros Hq Htol. rewrite (drain_dispatch _ _ _ _ Hq), Htol. reflexivity.
Qed.

Lemma run_once_idle (fuel : nat) (w : World) :
  path_ready (node w) = false -> run_once fuel w = time_sleep 1 w.
Proof.
  intros H. unfold run_once. rewrite bind_gets, H. reflexivity.
Qed.

Lemma run_once_exhausted (fuel : nat) (w : World) :
  path_ready (node w) = true ->
  waypoints (node w) = [] ->
  run_once fuel w =
  (Returned tt,
   mkWorld (params w) (set_path_ready false (node w)) (pending w)
     (trace w ++ [Log WARN (Text "No more waypoints to follow.")])).
Proof.
  intros Hr Hq. unfold run_once. rewrite bind_gets, Hr. cbn [negb].
  rewrite bind_gets, Hq. reflexivity.
Qed.

Lemma run_once_following (fuel : nat) (w : World) :
  path_ready (node w) = true ->
  waypoints (node w) <> [] ->
  run_once fuel w = drain fuel (following w).
Proof.
  intros Hr Hq. unfold run_once. rewrite bind_gets, Hr. cbn [negb].
  rewrite bind_gets. destruct (waypoints (node w)) eqn:E; [done|].
  unfold following. rewrite E. reflexivity.
Qed.

(** C6.  When the loop finds the armed flag set and the queue empty, the
    iteration returns after logging one warning and nothing else: the armed
    flag is cleared, the queue is still empty, the action client is not
    called, and the next iteration is the idle one (a one-second sleep). *)
Theorem run_once_armed_empty_queue (fuel : nat) (w : World) :
  path_ready (node w) = true ->
  waypoints (node w) = [] ->
  exists w',
    run_once fuel w = (Returned tt, w') /\
    trace w' = trace w ++ [Log WARN (Text "No more waypoints to follow.")] /\
    path_ready (node w') = false /\
    waypoints (node w') = [] /\
    client_calls (trace w') = client_calls (trace w) /\
    run_once fuel w' = time_sleep 1 w'.
Proof.
  intros Hr Hq. eexists. split; [apply run_once_exhausted; assumption|].
  cbn [trace node]. split; [reflexivity|].
  assert (Hp : path_ready (set_path_ready false (node w)) = false) by reflexivity.
  split; [exact Hp|]. split; [now destruct (node w)|].
  split; [rewrite client_calls_app; cbn; apply app_nil_r|].
  now apply run_once_idle.
Qed.

Lemma run_once_armed_empty_queue_witness :
  (path_ready (node armed_empty) = true /\ waypoints (node armed_empty) = []) /\
  exists w',
    run_once 0 armed_empty = (Returned tt, w') /\
    trace w' = trace armed_empty ++ [Log WARN (Text "No more waypoints to follow.")] /\
    path_ready (node w') = false /\
    waypoints (node w') = [] /\
    client_calls (trace w') = client_calls (trace armed_empty) /\
    run_once 0 w' = time_sleep 1 w'.
Proof.
  split; [split; reflexivity|].
  apply (run_once_armed_empty_queue 0 armed_empty); reflexivity.
Defined.

(** ** The distance-tolerance branch *)

Lemma run_once_tolerance (fuel : nat) (w : World) goal rest :
  PrimFloat.ltb 0 (distance_tolerance (node w)) = true ->
  path_ready (node w) = true ->
  waypoints (node w) = goal :: rest ->
  run_once (S fuel) w = (Raised not_implemented, dispatched goal rest (following w)).
Proof.
  intros Htol Hr Hq. rewrite run_once_following by (rewrite ?Hq; done).
  now apply drain_tolerance.
Qed.

Lemma run_raised (iters fuel : nat) (w w' : World) (e : Exn) :
  run_once fuel w = (Raised e, w') -> run (S iters) fuel w = (Raised e, w').
Proof. intros H. cbn [run]. now apply bind_raised. Qed.

(** C1.  With a distance tolerance above zero, an armed iteration over a
    non-empty queue raises [NotImplementedError]; the exception leaves
    [run], so the loop stops at that iteration; and nothing of the
    wait-for-completion path has run: no [wait_for_result], no settle
    sleep, no snapshot published. *)
Theorem run_once_tolerance_raises (fuel : nat) (w : World) :
  PrimFloat.ltb 0 (distance_tolerance (node w)) = true ->
  path_ready (node w) = true ->
  waypoints (node w) <> [] ->
  exists w' evs,
    run_once (S fuel) w =
      (Raised (NotImplementedError "distance_tolerance not implemented yet."), w') /\
    (forall iters, run (S iters) (S fuel) w =
      (Raised (NotImplementedError "distance_tolerance not implemented yet."), w')) /\
    trace w' = trace w ++ evs /\
    (WaitForResult ∉ evs) /\
    (forall secs, Sleep secs ∉ evs) /\
    snapshots evs = [].
Proof.
  intros Htol Hr Hq. destruct (waypoints (node w)) as [|goal rest] eqn:E; [done|].
  pose proof (run_once_tolerance fuel w goal rest Htol Hr E) as H.
  eexists. eexists. split; [exact H|]. split; [intros; now apply run_raised|].
  unfold dispatched, following. cbn [trace]. rewrite <- app_assoc.
  split; [reflexivity|]. cbn [app].
  split; [not_among|]. split; [intros secs; not_among|reflexivity].
Qed.

Lemma run_once_tolerance_raises_witness :
  (PrimFloat.ltb 0 (distance_tolerance (node armed_with_tolerance)) = true /\
   path_ready (node armed_with_tolerance) = true /\
   waypoints (node armed_with_tolerance) <> []) /\
  exists w' evs,
    run_once 1 armed_with_tolerance =
      (Raised (NotImplementedError "distance_tolerance not implemented yet."), w') /\
    (forall iters, run (S iters) 1 armed_with_tolerance =
      (Raised (NotImplementedError "distance_tolerance not implemented yet."), w')) /\
    trace w' = trace armed_with_tolerance ++ evs /\
    (WaitForResult ∉ evs) /\
    (forall secs, Sleep secs ∉ evs) /\
    snapshots evs = [].
Proof.
  assert (Hq : waypoints (node armed_with_tolerance) <> []) by (vm_compute; discriminate).
  split; [repeat split; try assumption; reflexivity|].
  apply (run_once_tolerance_raises 0 armed_with_tolerance); try assumption; reflexivity.
Defined.

(** C10.  With a distance tolerance above zero, the armed iteration has
    already popped the first waypoint and sent its goal to the action
    client when it raises: the world the exception leaves has the queue
    without its head and the goal at the end of the trace. *)
Theorem run_once_tolerance_not_atomic (fuel : nat) (w : World) goal rest :
  PrimFloat.ltb 0 (distance_tolerance (node w)) = true ->
  path_ready (node w) = true ->
  waypoints (node w) = goal :: rest ->
  exists w',
    run_once (S fuel) w =
      (Raised (NotImplementedError "distance_tolerance not implemented yet."), w') /\
    waypoints (node w') = rest /\
    sent_goals (trace w') = sent_goals (trace w) ++ [goal_of (frame_id (node w)) goal] /\
    last (trace w') = Some (SendGoal (goal_of (frame_id (node w)) goal)).
Proof.
  intros Htol Hr Hq. eexists.
  split; [exact (run_once_tolerance fuel w goal rest Htol Hr Hq)|].
  unfold dispatched, following. cbn [trace node]. split; [now destruct (node w)|].
  rewrite <- app_assoc. cbn [app]. split.
  - rewrite sent_goals_app. reflexivity.
  - rewrite last_app. reflexivity.
Qed.

Lemma run_once_tolerance_not_atomic_witness :
  (PrimFloat.ltb 0 (distance_tolerance (node armed_with_tolerance)) = true /\
   path_ready (node armed_with_tolerance) = true /\
   waypoints (node armed_with_tolerance) = [waypoint_at 1 1; waypoint_at 2 2]) /\
  exists w',
    run_once 1 armed_with_tolerance =
      (Raised (NotImplementedError "distance_tolerance not implemented yet."), w') /\
    waypoints (node w') = [waypoint_at 2 2] /\
    sent_goals (trace w') =
      sent_goals (trace armed_with_tolerance) ++
      [goal_of (frame_id (node armed_with_tolerance)) (waypoint_at 1 1)] /\
    last (trace w') =
      Some (SendGoal (goal_of (frame_id (node armed_with_tolerance)) (waypoint_at 1 1))).
Proof.
  split; [repeat split; reflexivity|].
  apply (run_once_tolerance_not_atomic 0 armed_with_tolerance
           (waypoint_at 1 1) [waypoint_at 2 2]); reflexivity.
Defined.

(** ** Facts about blocking calls *)

Lemma config_frame_id (c c' : Commander) : config c = config c' -> frame_id c = frame_id c'.
Proof. unfold config. intros H. now inversion H. Qed.

Lemma config_distance_tolerance (c c' : Commander) :
  config c = config c' -> distance_tolerance c = distance_tolerance c'.
Proof. unfold config. intros H. now inversion H. Qed.

Lemma set_waypoints_config l (c : Commander) : config (set_waypoints l c) = config c.
Proof. now destruct c. Qed.

Lemma set_path_ready_config b (c : Commander) : config (set_path_ready b c) = config c.
Proof. now destruct c. Qed.

Lemma waypoints_set_waypoints l (c : Commander) : waypoints (set_waypoints l c) = l.
Proof. now destruct c. Qed.

Lemma set_waypoints_set_waypoints l l' (c : Commander) :
  set_waypoints l (set_waypoints l' c) = set_waypoints l c.
Proof. now destruct c. Qed.

Lemma set_waypoints_same (c : Commander) : set_waypoints (waypoints c) c = c.
Proof. now destruct c. Qed.

Lemma client_calls_snoc_other (tr evs : list Event) :
  client_calls evs = [] -> client_calls (tr ++ evs) = client_calls tr.
Proof. intros H. now rewrite client_calls_app, H, app_nil_r. Qed.

Lemma sent_goals_client_calls (tr : list Event) :
  sent_goals (client_calls tr) = sent_goals tr.
Proof.
  induction tr as [|e tr IH]; [reflexivity|].
  unfold sent_goals, client_calls in *. destruct e; cbn; rewrite ?IH; reflexivity.
Qed.

Lemma sent_goals_same_client_calls (t1 t2 : list Event) :
  client_calls t1 = client_calls t2 -> sent_goals t1 = sent_goals t2.
Proof.
  intros H. now rewrite <- (sent_goals_client_calls t1), H, sent_goals_client_calls.
Qed.

Lemma quiet_schedule_add (a b : nat) (sched : list (list EnvAction)) :
  quiet_schedule (a + b) sched ->
  quiet_schedule a sched /\ quiet_schedule b (drop a sched).
Proof.
  unfold quiet_schedule. rewrite <- take_take_drop. apply Forall_app.
Qed.

Lemma blocking_quiet (e : Event) (w : World) :
  quiet_during 1 w ->
  blocking e w =
  (Returned tt, mkWorld (params w) (node w) (drop 1 (pending w)) (trace w ++ [e])).
Proof.
  intros H. destruct w as [ps c sch tr]. unfold quiet_during, quiet_schedule in H.
  cbn [pending] in H.
  unfold blocking, next_pending. destruct sch as [|acts sch]; m_compute; [reflexivity|].
  inversion H; subst. reflexivity.
Qed.

Lemma blocking_cons (e : Event) (w : World) acts sch :
  pending w = acts :: sch ->
  blocking e w = env_steps acts (mkWorld (params w) (node w) sch (trace w ++ [e])).
Proof.
  intros H. destruct w as [ps c p tr]. cbn in H. subst p. reflexivity.
Qed.

Lemma env_step_returns (a : EnvAction) (w : World) :
  exists w', env_step a w = (Returned tt, w').
Proof.
  destruct a; cbn [env_step]; try (eexists; reflexivity);
    rewrite bind_gets; destruct (waypoints_are_poses (node w)); eexists; reflexivity.
Qed.

Lemma env_steps_returns (acts : list EnvAction) :
  forall w : World, exists w', env_steps acts w = (Returned tt, w').
Proof.
  induction acts as [|a acts IH]; intros w; [eexists; reflexivity|].
  cbn [env_steps]. destruct (env_step_returns a w) as [w1 H1].
  rewrite (bind_returned _ _ _ _ _ H1). apply IH.
Qed.

Lemma blocking_returns (e : Event) (w : World) :
  exists w', blocking e w = (Returned tt, w').
Proof.
  destruct (pending w) as [|acts sch] eqn:E.
  - eexists. apply blocking_quiet. unfold quiet_during, quiet_schedule. rewrite E. constructor.
  - rewrite (blocking_cons _ _ _ _ E). apply env_steps_returns.
Qed.

Lemma env_steps_returned (acts : list EnvAction) (w : World) :
  env_steps acts w = (Returned tt, snd (env_steps acts w)).
Proof. destruct (env_steps_returns acts w) as [w' H]. now rewrite H. Qed.

Lemma blocking_returned (e : Event) (w : World) :
  blocking e w = (Returned tt, snd (blocking e w)).
Proof. destruct (blocking_returns e w) as [w' H]. now rewrite H. Qed.

Lemma env_step_frame (a : EnvAction) (w : World) :
  exists w',
    env_step a w = (Returned tt, w') /\
    pending w' = pending w /\
    config (node w') = config (node w) /\
    client_calls (trace w') = client_calls (trace w).
Proof.
  destruct a as [pose|point| | |name value]; cbn [env_step].
  - rewrite bind_gets. destruct (waypoints_are_poses (node w)).
    + unfold in_other_thread. rewrite pose_cb_eq. eexists. split; [reflexivity|].
      cbn -[toPoseArray config]. rewrite set_waypoints_config.
      rewrite client_calls_snoc_other by reflexivity. repeat split.
    + eexists. repeat split.
  - rewrite bind_gets. destruct (waypoints_are_poses (node w)).
    + eexists. repeat split.
    + unfold in_other_thread. rewrite point_cb_eq. eexists. split; [reflexivity|].
      cbn -[toPoseArray config]. rewrite set_waypoints_config.
      rewrite client_calls_snoc_other by reflexivity. repeat split.
  - unfold in_other_thread. rewrite make_path_ready_eq. eexists. split; [reflexivity|].
    cbn -[config]. rewrite set_path_ready_config. repeat split.
  - unfold in_other_thread. rewrite do_path_reset_eq. eexists. split; [reflexivity|].
    cbn -[toPoseArray config]. rewrite set_waypoints_config.
    rewrite client_calls_snoc_other; [repeat split|].
    now destruct (waypoints (node w)).
  - eexists. repeat split.
Qed.

Lemma env_steps_frame (acts : list EnvAction) :
  forall w : World,
    exists w',
      env_steps acts w = (Returned tt, w') /\
      pending w' = pending w /\
      config (node w') = config (node w) /\
      client_calls (trace w') = client_calls (trace w).
Proof.
  induction acts as [|a acts IH]; intros w.
  - exists w. repeat split.
  - destruct (env_step_frame a w) as (w1 & H1 & Hp1 & Hc1 & Ht1).
    destruct (IH w1) as (w' & H' & Hp' & Hc' & Ht').
    exists w'. cbn [env_steps]. rewrite (bind_returned _ _ _ _ _ H1).
    split; [exact H'|]. repeat split; congruence.
Qed.

(** A blocking call as the events and state changes of the other threads
    on top of its own event. *)
Lemma blocking_env (e : Event) (w : World) :
  snd (blocking e w) =
  snd (env_steps (hd [] (pending w))
         (mkWorld (params w) (node w) (tail (pending w)) (trace w ++ [e]))).
Proof.
  destruct (pending w) as [|acts sch] eqn:E.
  - rewrite blocking_quiet by (unfold quiet_during, quiet_schedule; rewrite E; constructor).
    rewrite E. reflexivity.
  - rewrite (blocking_cons _ _ _ _ E). reflexivity.
Qed.

Lemma blocking_frame (e : Event) (w : World) :
  pending (snd (blocking e w)) = tail (pending w) /\
  config (node (snd (blocking e w))) = config (node w) /\
  client_calls (trace (snd (blocking e w))) = client_calls (trace w ++ [e]).
Proof.
  rewrite blocking_env.
  match goal with |- context [env_steps ?acts ?w0] =>
    destruct (env_steps_frame acts w0) as (w' & H & Hp & Hc & Ht); rewrite H end.
  cbn [snd]. repeat split; assumption.
Qed.

Lemma client_calls_blocking_other (e : Event) (w : World) :
  client_call e = None ->
  client_calls (trace (snd (blocking e w))) = client_calls (trace w).
Proof.
  intros He. destruct (blocking_frame e w) as (_ & _ & Ht).
  rewrite Ht. apply client_calls_snoc_other. unfold client_calls. cbn. now rewrite He.
Qed.

Lemma sent_goals_blocking (e : Event) (w : World) :
  sent_goal e = None ->
  sent_goals (trace (snd (blocking e w))) = sent_goals (trace w).
Proof.
  intros He. destruct (blocking_frame e w) as (_ & _ & Ht).
  rewrite (sent_goals_same_client_calls _ _ Ht), sent_goals_app.
  unfold sent_goals at 2. cbn. rewrite He. apply app_nil_r.
Qed.

Lemma config_wait_duration (c c' : Commander) :
  config c = config c' -> wait_duration c = wait_duration c'.
Proof. unfold config. intros H. now inversion H. Qed.

Lemma time_sleep_1 : time_sleep 1 = blocking (Sleep 1).
Proof. reflexivity. Qed.

(** ** The settle part of a dispatch under any schedule *)

Lemma waited_frame (w : World) :
  pending (waited w) = tail (pending w) /\
  config (node (waited w)) = config (node w) /\
  client_calls (trace (waited w)) = client_calls (trace w) ++ [WaitForResult].
Proof.
  unfold waited, wait_for_result.
  destruct (blocking_frame WaitForResult w) as (Hp & Hc & Ht).
  cbn [info emit snd pending node trace].
  split; [exact Hp|]. split; [exact Hc|].
  rewrite client_calls_snoc_other by reflexivity.
  rewrite Ht. apply client_calls_app.
Qed.

(** [settle] either raises at [time.sleep], in the world [waited], or
    hands [settle_world] to its continuation. *)
Lemma settle_eq (k : M unit) (w : World) :
  settle k w =
  match sleep_error (wait_duration (node w)) with
  | Some e => (Raised e, waited w)
  | None => k (settle_world w)
  end.
Proof.
  destruct (waited_frame w) as (_ & Hc & _).
  rewrite <- (config_wait_duration _ _ Hc).
  unfold settle, settle_world, waited, wait_for_result in *.
  rewrite (bind_returned _ _ _ _ _ (blocking_returned WaitForResult w)), bind_gets.
  erewrite bind_returned by reflexivity.
  cbn [info emit snd node].
  destruct (sleep_error (wait_duration (node (snd (blocking WaitForResult w))))) as [e|] eqn:E.
  - rewrite (time_sleep_refuses _ _ E). reflexivity.
  - rewrite (time_sleep_accepts _ E).
    erewrite bind_returned by apply blocking_returned.
    rewrite bind_gets.
    erewrite bind_returned by reflexivity.
    erewrite bind_returned by reflexivity.
    reflexivity.
Qed.

Lemma settle_world_frame (w : World) :
  config (node (settle_world w)) = config (node w) /\
  client_calls (trace (settle_world w)) = client_calls (trace w) ++ [WaitForResult].
Proof.
  unfold settle_world. cbn [node trace].
  destruct (waited_frame w) as (_ & Hc1 & Ht1).
  set (w1 := waited w) in *.
  destruct (blocking_frame (Sleep (wait_duration (node w1))) w1) as (_ & Hc2 & Ht2).
  split; [congruence|].
  rewrite client_calls_snoc_other by reflexivity.
  rewrite Ht2, client_calls_snoc_other by reflexivity.
  exact Ht1.
Qed.

Lemma sent_goals_settle_world (w : World) :
  sent_goals (trace (settle_world w)) = sent_goals (trace w).
Proof.
  destruct (settle_world_frame w) as (_ & Ht).
  rewrite <- (sent_goals_client_calls (trace (settle_world w))), Ht.
  rewrite sent_goals_app, sent_goals_client_calls. apply app_nil_r.
Qed.

Lemma sent_goals_waited (w : World) :
  sent_goals (trace (waited w)) = sent_goals (trace w).
Proof.
  destruct (waited_frame w) as (_ & _ & Ht).
  rewrite <- (sent_goals_client_calls (trace (waited w))), Ht.
  rewrite sent_goals_app, sent_goals_client_calls. apply app_nil_r.
Qed.

(** One pass of the [while] loop over a non-empty queue. *)
Lemma drain_pass (fuel : nat) (w : World) goal rest :
  waypoints (node w) = goal :: rest ->
  drain (S fuel) w =
  if PrimFloat.ltb 0 (distance_tolerance (node w))
  then (Raised not_implemented, after_pass goal rest w)
  else
    match sleep_error (wait_duration (node w)) with
    | Some e => (Raised e, after_pass goal rest w)
    | None => drain fuel (after_pass goal rest w)
    end.
Proof.
  intros Hq. rewrite (drain_dispatch _ _ _ _ Hq). unfold after_pass.
  destruct (PrimFloat.ltb 0 (distance_tolerance (node w))); cbn [negb]; [reflexivity|].
  rewrite settle_eq.
  replace (wait_duration (node (dispatched goal rest w))) with (wait_duration (node w))
    by (cbn; now destruct (node w)).
  now destruct (sleep_error (wait_duration (node w))).
Qed.

(** ** A rule for properties kept by the loop *)

Section LoopInvariant.

Variable I : World -> Prop.

Hypothesis I_idle : forall w, I w -> I (snd (blocking (Sleep 1) w)).

Hypothesis I_exhausted : forall w,
  I w -> waypoints (node w) = [] ->
  I (mkWorld (params w) (set_path_ready false (node w)) (pending w)
       (trace w ++ [Log WARN (Text "No more waypoints to follow.")])).

Hypothesis I_following : forall w, I w -> I (following w).

Hypothesis I_pass : forall w goal rest,
  I w -> waypoints (node w) = goal :: rest -> I (after_pass goal rest w).

Lemma drain_invariant (fuel : nat) : forall w, I w -> I (snd (drain fuel w)).
Proof.
  induction fuel as [|fuel IH]; intros w Hw;
    destruct (waypoints (node w)) as [|goal rest] eqn:E;
    try (rewrite drain_nil by assumption; exact Hw).
  - cbn [drain]. rewrite bind_gets, E. exact Hw.
  - rewrite (drain_pass _ _ _ _ E). pose proof (I_pass w goal rest Hw E) as Hb.
    destruct (PrimFloat.ltb 0 (distance_tolerance (node w))); [exact Hb|].
    destruct (sleep_error (wait_duration (node w))); [exact Hb|now apply IH].
Qed.

Lemma run_once_invariant (fuel : nat) (w : World) : I w -> I (snd (run_once fuel w)).
Proof.
  intros Hw. destruct (path_ready (node w)) eqn:Hr.
  - destruct (waypoints (node w)) eqn:E.
    + rewrite run_once_exhausted by assumption. now apply I_exhausted.
    + rewrite run_once_following by (rewrite ?E; done).
      now apply drain_invariant, I_following.
  - rewrite run_once_idle, time_sleep_1 by assumption. now apply I_idle.
Qed.

Lemma run_invariant (iters fuel : nat) : forall w, I w -> I (snd (run iters fuel w)).
Proof.
  induction iters as [|iters IH]; intros w Hw; [exact Hw|].
  cbn [run]. pose proof (run_once_invariant fuel w Hw) as H1.
  unfold mbind, M_bind. destruct (run_once fuel w) as [[[]| |] w1]; cbn [snd] in H1 |- *;
    try exact H1.
  now apply IH.
Qed.

End LoopInvariant.

(** ** The wait-for-completion path with no other thread acting *)

Lemma settle_quiet (k : M unit) (w : World) :
  quiet_during 2 w ->
  sleep_error (wait_duration (node w)) = None ->
  settle k w = k (settled w).
Proof.
  intros H Hs. apply (quiet_schedule_add 1 1) in H. destruct H as [H1 H2].
  unfold settle, wait_for_result.
  erewrite bind_returned by (apply blocking_quiet, H1).
  rewrite bind_gets. cbn [node].
  erewrite bind_returned by reflexivity.
  rewrite (time_sleep_accepts _ Hs).
  erewrite bind_returned by (apply blocking_quiet; exact H2).
  rewrite bind_gets.
  erewrite bind_returned by reflexivity.
  erewrite bind_returned by reflexivity.
  unfold settled. cbn -[toPoseArray drop]. rewrite <- !app_assoc, drop_drop.
  reflexivity.
Qed.

Lemma drain_quiet (q : list PoseWithCovarianceStamped.t) :
  forall (fuel : nat) (w : World),
    quiet_during (2 * length q) w ->
    waypoints (node w) = q ->
    PrimFloat.ltb 0 (distance_tolerance (node w)) = false ->
    sleep_error (wait_duration (node w)) = None ->
    length q <= fuel ->
    exists w',
      drain fuel w = (Returned tt, w') /\
      pending w' = drop (2 * length q) (pending w) /\
      params w' = params w /\
      node w' = set_waypoints [] (node w) /\
      trace w' =
        trace w ++
        drain_events (params w) (frame_id (node w)) (waypoints_list_topic (node w))
          (wait_duration (node w)) q.
Proof.
  induction q as [|goal rest IH]; intros fuel w Hquiet Hq Htol Hs Hfuel.
  - exists w. rewrite drain_nil by assumption. cbn [drain_events].
    rewrite app_nil_r. repeat split.
    destruct (node w); cbn in Hq |- *; now subst.
  - destruct fuel as [|fuel]; [cbn in Hfuel; lia|].
    replace (2 * length (goal :: rest)) with (2 + 2 * length rest) in * by (cbn; lia).
    apply quiet_schedule_add in Hquiet. destruct Hquiet as [H2 Hrest].
    assert (Hsd : sleep_error (wait_duration (node (dispatched goal rest w))) = None)
      by (cbn; now destruct (node w)).
    rewrite (drain_wait _ _ _ _ Hq Htol), settle_quiet by assumption.
    destruct (IH fuel (settled (dispatched goal rest w)))
      as (w' & Hrun & Hp & Hps & Hnode & Htr).
    + exact Hrest.
    + cbn. now destruct (node w).
    + cbn. now destruct (node w).
    + exact Hsd.
    + cbn in Hfuel. lia.
    + exists w'. split; [exact Hrun|]. split; [|split; [exact Hps|split]].
      * rewrite Hp. cbn [pending settled dispatched]. apply drop_drop.
      * rewrite Hnode. cbn. now destruct (node w).
      * rewrite Htr. cbn [drain_events]. cbn -[toPoseArray drain_events].
        rewrite <- !app_assoc. cbn -[toPoseArray drain_events].
        destruct (node w); reflexivity.
Qed.

Lemma client_calls_drain_events ps f topic d q :
  client_calls (drain_events ps f topic d q) =
  flat_map (fun goal => [SendGoal (goal_of f goal); WaitForResult]) q.
Proof.
  induction q as [|goal rest IH]; [reflexivity|].
  cbn [drain_events flat_map]. rewrite client_calls_app, IH. reflexivity.
Qed.

Lemma sent_goals_drain_events ps f topic d q :
  sent_goals (drain_events ps f topic d q) = map (goal_of f) q.
Proof.
  induction q as [|goal rest IH]; [reflexivity|].
  cbn [drain_events map]. rewrite sent_goals_app, IH. reflexivity.
Qed.

Lemma snapshots_drain_events ps f topic d q :
  snapshots (drain_events ps f topic d q) =
  map (fun k => toPoseArray ps (drop k q)) (seq 1 (length q)).
Proof.
  induction q as [|goal rest IH]; [reflexivity|].
  cbn [drain_events length seq map].
  rewrite <- (seq_shift (length rest) 1), map_map, snapshots_app, IH. reflexivity.
Qed.

Lemma length_poses_toPoseArray ps (l : list PoseWithCovarianceStamped.t) :
  length (PoseArray.poses (toPoseArray ps l)) = length l.
Proof. unfold toPoseArray. cbn. apply length_map. Qed.

Lemma run_once_quiet (fuel : nat) (w : World) :
  quiet_during (2 * length (waypoints (node w))) w ->
  path_ready (node w) = true ->
  PrimFloat.ltb 0 (distance_tolerance (node w)) = false ->
  sleep_error (wait_duration (node w)) = None ->
  1 <= length (waypoints (node w)) ->
  length (waypoints (node w)) <= fuel ->
  exists w',
    run_once fuel w = (Returned tt, w') /\
    pending w' = drop (2 * length (waypoints (node w))) (pending w) /\
    params w' = params w /\
    node w' = set_waypoints [] (node w) /\
    trace w' =
      trace w ++
      Log INFO (FollowingPath (length (waypoints (node w)))) ::
      drain_events (params w) (frame_id (node w)) (waypoints_list_topic (node w))
        (wait_duration (node w)) (waypoints (node w)).
Proof.
  intros Hquiet Hr Htol Hs Hn Hfuel.
  rewrite run_once_following; [|assumption|now destruct (waypoints (node w))].
  destruct (drain_quiet (waypoints (node w)) fuel (following w))
    as (w' & Hrun & Hp & Hps & Hnode & Htr); try assumption; try reflexivity.
  exists w'. repeat split; try assumption.
  rewrite Htr. unfold following. cbn [trace node params]. now rewrite <- app_assoc.
Qed.

(** C4, as amended.  Armed with N >= 1 queued waypoints, a distance
    tolerance that is not above zero (0 in particular), a settle duration
    that [time.sleep] accepts (a number, not negative, within the range of
    nanoseconds) and no other thread acting during the 2N blocking calls,
    the iteration returns with the queue empty.  The action client was
    asked, for each waypoint in queue order, to send its goal and then to
    wait for the result, and nothing else: N goals, each waited for before
    the next is sent.  The snapshot published after the k-th dispatch is
    that of the queue without its first k waypoints, of length N - k. *)
Theorem run_once_dispatches_in_order (fuel : nat) (w : World) :
  quiet_during (2 * length (waypoints (node w))) w ->
  path_ready (node w) = true ->
  PrimFloat.ltb 0 (distance_tolerance (node w)) = false ->
  sleep_error (wait_duration (node w)) = None ->
  1 <= length (waypoints (node w)) ->
  length (waypoints (node w)) <= fuel ->
  exists w',
    run_once fuel w = (Returned tt, w') /\
    waypoints (node w') = [] /\
    client_calls (trace w') =
      client_calls (trace w) ++
      flat_map (fun goal => [SendGoal (goal_of (frame_id (node w)) goal); WaitForResult])
        (waypoints (node w)) /\
    length (sent_goals (trace w')) =
      length (sent_goals (trace w)) + length (waypoints (node w)) /\
    snapshots (trace w') =
      snapshots (trace w) ++
      map (fun k => toPoseArray (params w) (drop k (waypoints (node w))))
        (seq 1 (length (waypoints (node w)))) /\
    (forall k,
       length (PoseArray.poses (toPoseArray (params w) (drop k (waypoints (node w))))) =
       length (waypoints (node w)) - k).
Proof.
  intros Hquiet Hr Htol Hs Hn Hfuel.
  destruct (run_once_quiet fuel w) as (w' & Hrun & _ & _ & Hnode & Htr); try assumption.
  exists w'. split; [exact Hrun|]. split; [rewrite Hnode; now destruct (node w)|].
  rewrite Htr. change (?a ++ ?e :: ?l) with (a ++ [e] ++ l).
  split; [|split; [|split]].
  - rewrite !client_calls_app, client_calls_drain_events. reflexivity.
  - rewrite !sent_goals_app, sent_goals_drain_events, !length_app, length_map.
    reflexivity.
  - rewrite !snapshots_app, snapshots_drain_events. reflexivity.
  - intros k. rewrite length_poses_toPoseArray. apply length_drop.
Qed.

(** C4 as the specification states it fails.  With [wait_duration] set to
    -1, two waypoints queued, tolerance 0 and nobody else acting, the armed
    iteration does not make two dispatches: [time.sleep] refuses the
    settle duration, so the iteration raises [ValueError] after the first
    goal, with the second waypoint still queued and never sent. *)
Lemma run_once_dispatches_in_order_counterexample :
  (quiet_during (2 * length (waypoints (node armed_negative_wait))) armed_negative_wait /\
   path_ready (node armed_negative_wait) = true /\
   distance_tolerance (node armed_negative_wait) = 0%float /\
   length (waypoints (node armed_negative_wait)) = 2) /\
  fst (run_once 2 armed_negative_wait) =
    Raised (ValueError "sleep length must be non-negative") /\
  waypoints (node (snd (run_once 2 armed_negative_wait))) = [waypoint_at 2 2] /\
  length (sent_goals (trace (snd (run_once 2 armed_negative_wait)))) = 1.
Proof.
  split; [|repeat split; vm_compute; reflexivity].
  split; [vm_compute; constructor|]. repeat split; vm_compute; reflexivity.
Qed.

(** ** Iterations of a node that is not armed *)

Lemma env_step_no_arm (a : EnvAction) (w : World) :
  a <> EnvPathReady ->
  exists w',
    env_step a w = (Returned tt, w') /\
    pending w' = pending w /\
    path_ready (node w') = path_ready (node w) /\
    client_calls (trace w') = client_calls (trace w).
Proof.
  intros Ha. destruct a as [pose|point| | |name value]; cbn [env_step]; try done.
  - rewrite bind_gets. destruct (waypoints_are_poses (node w)).
    + unfold in_other_thread. rewrite pose_cb_eq. eexists. split; [reflexivity|].
      cbn -[toPoseArray]. rewrite client_calls_app. cbn -[toPoseArray].
      rewrite app_nil_r. now destruct (node w).
    + eexists. repeat split.
  - rewrite bind_gets. destruct (waypoints_are_poses (node w)).
    + eexists. repeat split.
    + unfold in_other_thread. rewrite point_cb_eq. eexists. split; [reflexivity|].
      cbn -[toPoseArray]. rewrite client_calls_app. cbn -[toPoseArray].
      rewrite app_nil_r. now destruct (node w).
  - unfold in_other_thread. rewrite do_path_reset_eq. eexists. split; [reflexivity|].
    cbn -[toPoseArray]. rewrite client_calls_app.
    destruct (node w) as [f o b wd tol tin tout mode q ready]. cbn -[toPoseArray].
    destruct q; cbn -[toPoseArray]; now rewrite app_nil_r.
  - eexists. repeat split.
Qed.

Lemma env_steps_no_arm (acts : list EnvAction) :
  forall w : World,
    Forall (fun a => a <> EnvPathReady) acts ->
    exists w',
      env_steps acts w = (Returned tt, w') /\
      pending w' = pending w /\
      path_ready (node w') = path_ready (node w) /\
      client_calls (trace w') = client_calls (trace w).
Proof.
  induction acts as [|a acts IH]; intros w H.
  - exists w. repeat split.
  - inversion H as [|? ? Ha Hacts]; subst.
    destruct (env_step_no_arm a w Ha) as (w1 & H1 & Hp1 & Hr1 & Hc1).
    destruct (IH w1 Hacts) as (w' & H' & Hp' & Hr' & Hc').
    exists w'. cbn [env_steps]. rewrite (bind_returned _ _ _ _ _ H1).
    split; [exact H'|]. repeat split; congruence.
Qed.

Lemma time_sleep_no_arm (secs : float) (w : World) :
  sleep_error secs = None ->
  no_arm (pending w) ->
  exists w',
    time_sleep secs w = (Returned tt, w') /\
    no_arm (pending w') /\
    path_ready (node w') = path_ready (node w) /\
    client_calls (trace w') = client_calls (trace w).
Proof.
  intros Hs H. rewrite (time_sleep_accepts _ Hs).
  destruct (pending w) as [|acts sch] eqn:E.
  - eexists. split.
    + apply blocking_quiet. unfold quiet_during, quiet_schedule. rewrite E. constructor.
    + cbn [pending node trace]. rewrite E, client_calls_app. cbn.
      rewrite app_nil_r. repeat split. constructor.
  - inversion H as [|? ? Hacts Hsch]; subst.
    rewrite (blocking_cons _ _ _ _ E).
    destruct (env_steps_no_arm acts
                (mkWorld (params w) (node w) sch (trace w ++ [Sleep secs])) Hacts)
      as (w' & H' & Hp' & Hr' & Hc').
    exists w'. split; [exact H'|]. cbn [pending node trace] in Hp', Hr', Hc'.
    rewrite Hp', Hr', Hc', client_calls_app. cbn. rewrite app_nil_r. repeat split.
    exact Hsch.
Qed.

Lemma run_idle (iters fuel : nat) :
  forall w : World,
    no_arm (pending w) ->
    path_ready (node w) = false ->
    exists w',
      run iters fuel w = (Returned tt, w') /\
      path_ready (node w') = false /\
      client_calls (trace w') = client_calls (trace w).
Proof.
  induction iters as [|iters IH]; intros w Hna Hr.
  - exists w. repeat split. exact Hr.
  - destruct (time_sleep_no_arm 1 w eq_refl Hna) as (w1 & H1 & Hna1 & Hr1 & Hc1).
    destruct (IH w1 Hna1) as (w' & H' & Hr' & Hc'); [congruence|].
    exists w'. cbn [run]. rewrite (bind_returned _ _ w w1 tt).
    + split; [exact H'|]. split; [exact Hr'|]. congruence.
    + rewrite run_once_idle by assumption. exact H1.
Qed.

Lemma env_step_keeps_armed (a : EnvAction) (w : World) :
  path_ready (node w) = true -> path_ready (node (snd (env_step a w))) = true.
Proof.
  intros Hr. destruct a as [pose|point| | |name value]; cbn [env_step].
  - rewrite bind_gets. destruct (waypoints_are_poses (node w)); [|exact Hr].
    unfold in_other_thread. rewrite pose_cb_eq. cbn [snd node].
    rewrite <- Hr. now destruct (node w).
  - rewrite bind_gets. destruct (waypoints_are_poses (node w)); [exact Hr|].
    unfold in_other_thread. rewrite point_cb_eq. cbn [snd node].
    rewrite <- Hr. now destruct (node w).
  - unfold in_other_thread. rewrite make_path_ready_eq. cbn [snd node].
    now destruct (node w).
  - unfold in_other_thread. rewrite do_path_reset_eq. cbn [snd node].
    rewrite <- Hr. now destruct (node w).
  - exact Hr.
Qed.

Lemma env_steps_keeps_armed (acts : list EnvAction) :
  forall w : World,
    path_ready (node w) = true -> path_ready (node (snd (env_steps acts w))) = true.
Proof.
  induction acts as [|a acts IH]; intros w Hr; [exact Hr|].
  cbn [env_steps]. destruct (env_step_returns a w) as [w1 H1].
  rewrite (bind_returned _ _ _ _ _ H1). apply IH.
  pose proof (env_step_keeps_armed a w Hr) as H. now rewrite H1 in H.
Qed.

Lemma blocking_keeps_armed (e : Event) (w : World) :
  path_ready (node w) = true -> path_ready (node (snd (blocking e w))) = true.
Proof. intros Hr. rewrite blocking_env. now apply env_steps_keeps_armed. Qed.

Lemma after_pass_keeps_armed (w : World) goal rest :
  path_ready (node w) = true -> path_ready (node (after_pass goal rest w)) = true.
Proof.
  intros Hr.
  assert (Hd : path_ready (node (dispatched goal rest w)) = true)
    by (cbn; rewrite <- Hr; now destruct (node w)).
  assert (Hw : path_ready (node (waited (dispatched goal rest w))) = true)
    by (unfold waited, wait_for_result; cbn [info emit snd node];
        now apply blocking_keeps_armed).
  unfold after_pass.
  destruct (PrimFloat.ltb 0 (distance_tolerance (node w))); [exact Hd|].
  destruct (sleep_error (wait_duration (node w))); [exact Hw|].
  unfold settle_world. cbn [node]. now apply blocking_keeps_armed.
Qed.

(** A [while] loop that returns has emptied the queue. *)
Lemma drain_returned_empty (fuel : nat) :
  forall w w1 : World, drain fuel w = (Returned tt, w1) -> waypoints (node w1) = [].
Proof.
  induction fuel as [|fuel IH]; intros w w1 H;
    destruct (waypoints (node w)) as [|goal rest] eqn:E;
    try (rewrite drain_nil in H by assumption; inversion H; now subst).
  - cbn [drain] in H. rewrite bind_gets, E in H. discriminate H.
  - rewrite (drain_pass _ _ _ _ E) in H.
    destruct (PrimFloat.ltb 0 (distance_tolerance (node w))); [discriminate H|].
    destruct (sleep_error (wait_duration (node w))); [discriminate H|].
    now apply (IH _ _ H).
Qed.

(** An iteration that starts unarmed, or armed with an empty queue,
    returns without a call to the action client. *)
Lemma run_once_no_work (fuel : nat) (w : World) :
  path_ready (node w) = false \/ waypoints (node w) = [] ->
  exists w',
    run_once fuel w = (Returned tt, w') /\
    client_calls (trace w') = client_calls (trace w).
Proof.
  intros H. destruct (path_ready (node w)) eqn:Hr.
  - destruct H as [H|H]; [discriminate H|].
    rewrite run_once_exhausted by assumption. eexists. split; [reflexivity|].
    cbn [trace]. now apply client_calls_snoc_other.
  - rewrite run_once_idle, time_sleep_1, blocking_returned by assumption.
    eexists. split; [reflexivity|]. now apply client_calls_blocking_other.
Qed.

Lemma run_no_work (iters fuel : nat) :
  forall w : World,
    finds_no_work iters fuel w ->
    exists w',
      run iters fuel w = (Returned tt, w') /\
      client_calls (trace w') = client_calls (trace w).
Proof.
  induction iters as [|iters IH]; intros w H.
  - exists w. split; reflexivity.
  - destruct H as [H0 H]. destruct (run_once_no_work fuel w H0) as (w1 & Hrun & Hc).
    rewrite Hrun in H. cbn [snd] in H.
    destruct (IH w1 H) as (w' & Hrun' & Hc').
    exists w'. cbn [run]. rewrite (bind_returned _ _ _ _ _ Hrun).
    split; [exact Hrun'|congruence].
Qed.

Lemma finds_no_work_no_arm (iters fuel : nat) :
  forall w : World,
    path_ready (node w) = false -> no_arm (pending w) -> finds_no_work iters fuel w.
Proof.
  induction iters as [|iters IH]; intros w Hr Hna; [exact I|].
  split; [now left|].
  destruct (time_sleep_no_arm 1 w eq_refl Hna) as (w1 & H1 & Hna1 & Hr1 & _).
  rewrite run_once_idle, H1 by assumption. cbn [snd].
  apply IH; [congruence|exact Hna1].
Qed.

(** C8.  First, the queue does get drained: armed with N >= 1 waypoints,
    a tolerance not above zero, a settle duration [time.sleep] accepts and
    nobody acting during the 2N blocking calls, the iteration returns.
    Second, after any armed iteration over a non-empty queue that has
    returned, whatever happened during it: the queue is empty and the
    armed flag still set; the next iteration logs the warning and clears
    the flag; and from then on, as long as the loop does not find itself
    armed with a non-empty queue (which takes a new arm command: without
    one it never does), every iteration returns and no further goal is
    sent, whatever waypoints, resets and arm commands on an empty queue
    arrive. *)
Theorem run_after_drain_is_idle :
  (forall fuel w,
     quiet_during (2 * length (waypoints (node w))) w ->
     path_ready (node w) = true ->
     PrimFloat.ltb 0 (distance_tolerance (node w)) = false ->
     sleep_error (wait_duration (node w)) = None ->
     1 <= length (waypoints (node w)) ->
     length (waypoints (node w)) <= fuel ->
     exists w1, run_once fuel w = (Returned tt, w1)) /\
  (forall fuel w w1,
     path_ready (node w) = true ->
     waypoints (node w) <> [] ->
     run_once fuel w = (Returned tt, w1) ->
     waypoints (node w1) = [] /\
     path_ready (node w1) = true /\
     exists w2,
       run_once fuel w1 = (Returned tt, w2) /\
       trace w2 = trace w1 ++ [Log WARN (Text "No more waypoints to follow.")] /\
       path_ready (node w2) = false /\
       (forall iters,
          finds_no_work iters fuel w2 ->
          exists w',
            run iters fuel w2 = (Returned tt, w') /\
            sent_goals (trace w') = sent_goals (trace w1)) /\
       (forall iters, no_arm (pending w2) -> finds_no_work iters fuel w2)).
Proof.
  split.
  - intros fuel w Hquiet Hr Htol Hs Hn Hfuel.
    destruct (run_once_quiet fuel w) as (w1 & Hrun & _); try assumption.
    exists w1. exact Hrun.
  - intros fuel w w1 Hr Hq Hrun.
    rewrite run_once_following in Hrun by assumption.
    assert (Hw1 : waypoints (node w1) = []) by apply (drain_returned_empty _ _ _ Hrun).
    assert (Hr1 : path_ready (node w1) = true).
    { pose proof (drain_invariant (fun w0 => path_ready (node w0) = true)
                    (fun w0 goal rest H0 _ => after_pass_keeps_armed w0 goal rest H0)
                    fuel (following w) Hr) as H.
      now rewrite Hrun in H. }
    split; [exact Hw1|]. split; [exact Hr1|].
    eexists. split; [apply run_once_exhausted; assumption|].
    cbn [trace node pending]. split; [reflexivity|]. split; [reflexivity|].
    split.
    + intros iters H. destruct (run_no_work iters fuel _ H) as (w' & Hrun' & Hc).
      exists w'. split; [exact Hrun'|].
      rewrite (sent_goals_same_client_calls _ _ Hc). cbn [trace].
      rewrite sent_goals_app. cbn. apply app_nil_r.
    + intros iters Hna. now apply finds_no_work_no_arm.
Qed.

(** ** Ingestion of points *)

Lemma poses_toPoseArray_points ps (points : list PointStamped.t) :
  PoseArray.poses (toPoseArray ps (map toPoseWithCov points)) = map pose_of_point points.
Proof. unfold toPoseArray. cbn. rewrite map_map. reflexivity. Qed.

Lemma point_cbs_eq (points : list PointStamped.t) :
  forall w : World,
    exists w',
      point_cbs points w = (Returned tt, w') /\
      params w' = params w /\
      waypoints (node w') = waypoints (node w) ++ map toPoseWithCov points /\
      snapshots (trace w') =
        snapshots (trace w) ++
        map (fun k => toPoseArray (params w)
                        (waypoints (node w) ++ map toPoseWithCov (take k points)))
          (seq 1 (length points)).
Proof.
  induction points as [|point rest IH]; intros w.
  - exists w. cbn. rewrite !app_nil_r. repeat split.
  - cbn [point_cbs]. erewrite bind_returned by apply point_cb_eq.
    match goal with |- context [point_cbs rest ?w1] => destruct (IH w1) as (w' & Hrun & Hps & Hq & Hs) end.
    cbn [params node trace] in Hps, Hq, Hs.
    exists w'. split; [exact Hrun|]. split; [exact Hps|]. split.
    + rewrite Hq. destruct (node w); cbn. now rewrite <- app_assoc.
    + rewrite Hs, snapshots_app. cbn [length seq map].
      rewrite <- (seq_shift (length rest) 1), map_map, <- app_assoc.
      destruct (node w) as [f o b wd tol tin tout mode q ready]; cbn -[toPoseArray].
      f_equal. f_equal. apply map_ext. intros k. now rewrite <- app_assoc.
Qed.

(** C5.  Starting from an empty queue, a run of n point ingestions never
    raises and leaves in the queue the n converted points in arrival order.
    It publishes n snapshots, one after each point: the k-th holds k poses,
    those of the first k points in arrival order, each with the point as
    position and the identity quaternion (0, 0, 0, 1) as orientation. *)
Theorem point_cbs_snapshots (points : list PointStamped.t) (w : World) :
  waypoints (node w) = [] ->
  exists w' snaps,
    point_cbs points w = (Returned tt, w') /\
    waypoints (node w') = map toPoseWithCov points /\
    snapshots (trace w') = snapshots (trace w) ++ snaps /\
    Forall2
      (fun k pa =>
         length (PoseArray.poses pa) = k /\
         PoseArray.poses pa =
           map (fun point => Pose.mk (PointStamped.point point) (Quaternion.mk 0 0 0 1))
             (take k points))
      (seq 1 (length points)) snaps.
Proof.
  intros Hq. destruct (point_cbs_eq points w) as (w' & Hrun & _ & Hq' & Hs).
  rewrite Hq in Hq', Hs. cbn [app] in Hq', Hs.
  eexists. eexists. split; [exact Hrun|]. split; [exact Hq'|]. split; [exact Hs|].
  apply Forall2_fmap_r, Forall_Forall2_diag, Forall_forall.
  intros k Hk. apply elem_of_seq in Hk. unfold compose.
  rewrite poses_toPoseArray_points. split; [|reflexivity].
  rewrite length_map, length_take. lia.
Qed.

Lemma point_cbs_snapshots_witness :
  waypoints (node fresh) = [] /\
  exists w' snaps,
    point_cbs [point_at 1 1; point_at 2 2; point_at 3 3] fresh = (Returned tt, w') /\
    waypoints (node w') = map toPoseWithCov [point_at 1 1; point_at 2 2; point_at 3 3] /\
    snapshots (trace w') = snapshots (trace fresh) ++ snaps /\
    Forall2
      (fun k pa =>
         length (PoseArray.poses pa) = k /\
         PoseArray.poses pa =
           map (fun point => Pose.mk (PointStamped.point point) (Quaternion.mk 0 0 0 1))
             (take k [point_at 1 1; point_at 2 2; point_at 3 3]))
      (seq 1 (length [point_at 1 1; point_at 2 2; point_at 3 3])) snaps.
Proof.
  split; [reflexivity|].
  apply (point_cbs_snapshots [point_at 1 1; point_at 2 2; point_at 3 3] fresh).
  reflexivity.
Defined.

(** ** Other threads acting during the blocking calls *)

Lemma drain_no_index_error (fuel : nat) :
  forall w : World, no_index_error (drain fuel w).
Proof.
  induction fuel as [|fuel IH]; intros w;
    destruct (waypoints (node w)) as [|goal rest] eqn:E;
    try (rewrite drain_nil by assumption; exact I).
  - cbn [drain]. rewrite bind_gets, E. exact I.
  - rewrite (drain_pass _ _ _ _ E).
    destruct (PrimFloat.ltb 0 (distance_tolerance (node w))); [exact I|].
    destruct (sleep_error (wait_duration (node w))) as [e|] eqn:Es; [|apply IH].
    unfold sleep_error in Es.
    repeat match type of Es with
           | (if ?b then _ else _) = _ => destruct b
           end; inversion Es; exact I.
Qed.

Lemma run_once_no_index_error (fuel : nat) (w : World) :
  no_index_error (run_once fuel w).
Proof.
  destruct (path_ready (node w)) eqn:Hr.
  - destruct (waypoints (node w)) eqn:E.
    + rewrite run_once_exhausted by assumption. exact I.
    + rewrite run_once_following by (rewrite ?E; done). apply drain_no_index_error.
  - rewrite run_once_idle, time_sleep_1, blocking_returned by assumption. exact I.
Qed.

Lemma run_no_index_error (iters fuel : nat) :
  forall w : World, no_index_error (run iters fuel w).
Proof.
  induction iters as [|iters IH]; intros w; [exact I|].
  cbn [run]. pose proof (run_once_no_index_error fuel w) as H.
  unfold mbind, M_bind. destruct (run_once fuel w) as [[[]| |] w1]; try exact H.
  apply IH.
Qed.

Lemma env_steps_reset (w : World) :
  snd (env_steps [EnvPathReset] w) = snd (do_path_reset w).
Proof. reflexivity. Qed.

Lemma settle_reset (k : M unit) (w : World) sched :
  pending w = [EnvPathReset] :: [] :: sched ->
  sleep_error (wait_duration (node w)) = None ->
  settle k w = k (settled_after_reset sched w).
Proof.
  intros H Hs. rewrite settle_eq, Hs. f_equal.
  destruct w as [ps c p tr]. cbn in H. subst p.
  unfold settle_world, waited, wait_for_result, settled_after_reset.
  rewrite (blocking_cons WaitForResult
             (mkWorld ps c ([EnvPathReset] :: [] :: sched) tr)
             [EnvPathReset] ([] :: sched) eq_refl).
  rewrite env_steps_reset, do_path_reset_eq.
  cbn [snd fst info emit params node pending trace].
  erewrite blocking_cons by reflexivity.
  cbn -[toPoseArray reset_events].
  destruct c as [f o b wd tol tin tout mode q ready]. cbn -[toPoseArray reset_events].
  rewrite <- !app_assoc. reflexivity.
Qed.

(** C9.  No run of the loop raises [IndexError], whatever the
    configuration, whatever the other threads do during its blocking calls
    and however long it goes on: the only [pop(0)] follows the test of
    [while self.waypoints:].  When Reset runs while the goal of the first
    waypoint is in flight (and [time.sleep] accepts the settle duration,
    so that the queue is tested again), the iteration returns normally
    after that one dispatch, with the queue empty and the waypoints that
    were still queued never sent. *)
Theorem run_once_pop_is_guarded :
  (forall iters fuel w, no_index_error (run iters fuel w)) /\
  (forall fuel w goal rest sched,
     path_ready (node w) = true ->
     PrimFloat.ltb 0 (distance_tolerance (node w)) = false ->
     sleep_error (wait_duration (node w)) = None ->
     waypoints (node w) = goal :: rest ->
     pending w = [EnvPathReset] :: [] :: sched ->
     exists w',
       run_once (S fuel) w = (Returned tt, w') /\
       waypoints (node w') = [] /\
       sent_goals (trace w') =
         sent_goals (trace w) ++ [goal_of (frame_id (node w)) goal]).
Proof.
  split; [intros; apply run_no_index_error|].
  intros fuel w goal rest sched Hr Htol Hs Hq Hp.
  rewrite run_once_following by (rewrite ?Hq; done).
  rewrite (drain_wait fuel (following w) goal rest Hq Htol).
  rewrite (settle_reset _ _ sched); [|exact Hp|cbn; now destruct (node w)].
  eexists. split; [apply drain_nil; reflexivity|].
  split; [reflexivity|].
  unfold settled_after_reset, dispatched, following.
  cbn -[toPoseArray reset_events].
  rewrite !sent_goals_app. cbn -[toPoseArray].
  destruct rest; cbn -[toPoseArray]; now rewrite !app_nil_r.
Qed.

Lemma run_once_dispatches_in_order_witness :
  (quiet_during (2 * length (waypoints (node armed))) armed /\
   path_ready (node armed) = true /\
   PrimFloat.ltb 0 (distance_tolerance (node armed)) = false /\
   sleep_error (wait_duration (node armed)) = None /\
   1 <= length (waypoints (node armed)) /\
   length (waypoints (node armed)) <= 2) /\
  exists w',
    run_once 2 armed = (Returned tt, w') /\
    waypoints (node w') = [] /\
    client_calls (trace w') =
      client_calls (trace armed) ++
      flat_map (fun goal => [SendGoal (goal_of (frame_id (node armed)) goal); WaitForResult])
        (waypoints (node armed)) /\
    length (sent_goals (trace w')) =
      length (sent_goals (trace armed)) + length (waypoints (node armed)) /\
    snapshots (trace w') =
      snapshots (trace armed) ++
      map (fun k => toPoseArray (params armed) (drop k (waypoints (node armed))))
        (seq 1 (length (waypoints (node armed)))) /\
    (forall k,
       length (PoseArray.poses (toPoseArray (params armed) (drop k (waypoints (node armed))))) =
       length (waypoints (node armed)) - k).
Proof.
  assert (Hquiet : quiet_during (2 * length (waypoints (node armed))) armed)
    by (vm_compute; constructor).
  assert (Hlo : 1 <= length (waypoints (node armed))) by (vm_compute; lia).
  assert (Hhi : length (waypoints (node armed)) <= 2) by (vm_compute; lia).
  split; [repeat split; try assumption; reflexivity|].
  apply (run_once_dispatches_in_order 2 armed); try assumption; reflexivity.
Defined.

Lemma run_after_drain_is_idle_witness :
  ((quiet_during (2 * length (waypoints (node busy_after_drain))) busy_after_drain /\
    path_ready (node busy_after_drain) = true /\
    PrimFloat.ltb 0 (distance_tolerance (node busy_after_drain)) = false /\
    sleep_error (wait_duration (node busy_after_drain)) = None /\
    1 <= length (waypoints (node busy_after_drain)) /\
    length (waypoints (node busy_after_drain)) <= 2) /\
   exists w1, run_once 2 busy_after_drain = (Returned tt, w1)) /\
  ((path_ready (node busy_after_drain) = true /\
    waypoints (node busy_after_drain) <> [] /\
    run_once 2 busy_after_drain = (Returned tt, drained)) /\
   waypoints (node drained) = [] /\
   path_ready (node drained) = true /\
   exists w2,
     run_once 2 drained = (Returned tt, w2) /\
     trace w2 = trace drained ++ [Log WARN (Text "No more waypoints to follow.")] /\
     path_ready (node w2) = false /\
     (forall iters,
        finds_no_work iters 2 w2 ->
        exists w',
          run iters 2 w2 = (Returned tt, w') /\
          sent_goals (trace w') = sent_goals (trace drained)) /\
     (forall iters, no_arm (pending w2) -> finds_no_work iters 2 w2)).
Proof.
  assert (Hquiet : quiet_during (2 * length (waypoints (node busy_after_drain)))
                     busy_after_drain)
    by (vm_compute; repeat constructor).
  assert (Hlo : 1 <= length (waypoints (node busy_after_drain))) by (vm_compute; lia).
  assert (Hhi : length (waypoints (node busy_after_drain)) <= 2) by (vm_compute; lia).
  assert (Hq : waypoints (node busy_after_drain) <> []) by (vm_compute; discriminate).
  assert (Hrun : run_once 2 busy_after_drain = (Returned tt, drained))
    by (vm_compute; reflexivity).
  split.
  - split; [repeat split; try assumption; reflexivity|].
    apply (proj1 run_after_drain_is_idle 2 busy_after_drain); try assumption; reflexivity.
  - split; [split; [reflexivity|split; assumption]|].
    apply (proj2 run_after_drain_is_idle 2 busy_after_drain drained eq_refl Hq Hrun).
Defined.

Lemma run_once_pop_is_guarded_witness :
  (path_ready (node reset_in_flight) = true /\
   PrimFloat.ltb 0 (distance_tolerance (node reset_in_flight)) = false /\
   sleep_error (wait_duration (node reset_in_flight)) = None /\
   waypoints (node reset_in_flight) = [waypoint_at 1 1; waypoint_at 2 2] /\
   pending reset_in_flight = [[EnvPathReset]; []]) /\
  exists w',
    run_once 1 reset_in_flight = (Returned tt, w') /\
    waypoints (node w') = [] /\
    sent_goals (trace w') =
      sent_goals (trace reset_in_flight) ++
      [goal_of (frame_id (node reset_in_flight)) (waypoint_at 1 1)].
Proof.
  split; [repeat split; reflexivity|].
  apply (proj2 run_once_pop_is_guarded 0 reset_in_flight
           (waypoint_at 1 1) [waypoint_at 2 2] []); reflexivity.
Defined.

(** ** The frame id of the snapshots *)

Lemma toPoseArray_frame_id (ps : ParamServer) (l : list PoseWithCovarianceStamped.t) :
  Header.frame_id (PoseArray.header (toPoseArray ps l)) =
  get_param_str ps "~goal_frame_id" "map".
Proof. reflexivity. Qed.

(** C3, the code at two inputs where it departs from the specification.
    Started with [goal_frame_id] set to ["odom"], the node keeps ["odom"]
    and sends its goals in that frame, yet the snapshots it publishes carry
    ["map"]: [toPoseArray] reads the private name [~goal_frame_id].  And
    started with nothing set, a node whose operator sets [~goal_frame_id]
    to ["odom"] during an idle sleep publishes its next snapshot in
    ["odom"], while the frame it loaded at startup is still ["map"]. *)
Theorem snapshot_frame_id_is_not_the_loaded_one :
  (frame_id (node (armed_with odom_params [])) = "odom" /\
   map (fun pa => Header.frame_id (PoseArray.header pa))
     (snapshots (trace (snd (run_once 2 (armed_with odom_params []))))) =
     ["map"; "map"; "map"; "map"] /\
   map (fun g => Header.frame_id (PoseStamped.header (MoveBaseGoal.target_pose g)))
     (sent_goals (trace (snd (run_once 2 (armed_with odom_params []))))) =
     ["odom"; "odom"]) /\
  (frame_id (node (snd (run 1 0 (startup no_params
     [[EnvSetParam "~goal_frame_id" "odom"; EnvPose (waypoint_at 1 1)]])))) = "map" /\
   map (fun pa => Header.frame_id (PoseArray.header pa))
     (snapshots (trace (snd (run 1 0 (startup no_params
        [[EnvSetParam "~goal_frame_id" "odom"; EnvPose (waypoint_at 1 1)]]))))) =
     ["odom"]).
Proof. repeat split; vm_compute; reflexivity. Qed.

(** * Further properties *)

(** ** What the callbacks and the service handlers leave alone *)

(** X1.  Each callback and each service handler returns without an
    exception, whatever the state of the node and whatever message it is
    given: [pose_cb] and [point_cb] return [None], [make_path_ready] and
    [do_path_reset] return [(True, "")].  None of them changes an attribute
    read at startup, and none calls the action client: no goal is sent and
    none is waited for outside the loop thread.  The same then holds of any
    sequence of them run by the other threads, parameter changes
    included. *)
Theorem handlers_keep_config_and_client :
  (forall pose w, exists w',
     pose_cb pose w = (Returned tt, w') /\
     config (node w') = config (node w) /\
     client_calls (trace w') = client_calls (trace w)) /\
  (forall point w, exists w',
     point_cb point w = (Returned tt, w') /\
     config (node w') = config (node w) /\
     client_calls (trace w') = client_calls (trace w)) /\
  (forall w, exists w',
     make_path_ready w = (Returned (true, ""), w') /\
     config (node w') = config (node w) /\
     client_calls (trace w') = client_calls (trace w)) /\
  (forall w, exists w',
     do_path_reset w = (Returned (true, ""), w') /\
     config (node w') = config (node w) /\
     client_calls (trace w') = client_calls (trace w)) /\
  (forall acts w, exists w',
     env_steps acts w = (Returned tt, w') /\
     config (node w') = config (node w) /\
     client_calls (trace w') = client_calls (trace w)).
Proof.
  split; [|split; [|split; [|split]]].
  - intros pose w. eexists. split; [apply pose_cb_eq|].
    cbn -[toPoseArray config]. rewrite set_waypoints_config.
    split; [reflexivity|]. now apply client_calls_snoc_other.
  - intros point w. eexists. split; [apply point_cb_eq|].
    cbn -[toPoseArray config]. rewrite set_waypoints_config.
    split; [reflexivity|]. now apply client_calls_snoc_other.
  - intros w. eexists. split; [apply make_path_ready_eq|].
    cbn -[config]. rewrite set_path_ready_config. split; reflexivity.
  - intros w. eexists. split; [apply do_path_reset_eq|].
    cbn -[toPoseArray config]. rewrite set_waypoints_config.
    split; [reflexivity|]. apply client_calls_snoc_other.
    now destruct (waypoints (node w)).
  - intros acts w. destruct (env_steps_frame acts w) as (w' & H & _ & Hc & Ht).
    exists w'. repeat split; assumption.
Qed.

(** ** The frame of the goals *)

(** X2.  Whatever the parameter server holds at startup, whatever the other
    threads do and however long the loop runs, the attributes read at
    startup are never changed, and every goal sent to the action client is
    in the frame loaded at startup from [goal_frame_id] (default ["map"]):
    the frame of the waypoint's own header plays no part. *)
Theorem goals_carry_loaded_frame (ps : ParamServer) (sched : list (list EnvAction))
  (iters fuel : nat) :
  config (node (snd (main ps sched iters fuel))) = config (__init__ ps) /\
  Forall (fun g => goal_frame g = get_param_str ps "goal_frame_id" "map")
    (sent_goals (trace (snd (main ps sched iters fuel)))).
Proof.
  unfold main.
  apply (run_invariant
           (fun w => config (node w) = config (__init__ ps) /\
                     Forall (fun g => goal_frame g = get_param_str ps "goal_frame_id" "map")
                       (sent_goals (trace w)))).
  - intros w [Hc Hg].
    destruct (blocking_frame (Sleep 1) w) as (_ & Hc' & _).
    split; [congruence|]. now rewrite sent_goals_blocking.
  - intros w [Hc Hg] _. cbn [node trace].
    rewrite set_path_ready_config, sent_goals_app. cbn. rewrite app_nil_r. now split.
  - intros w [Hc Hg]. unfold following. cbn [node trace].
    rewrite sent_goals_app. cbn. rewrite app_nil_r. now split.
  - intros w goal rest [Hc Hg] Hq.
    assert (Hd : config (node (dispatched goal rest w)) = config (__init__ ps) /\
                 Forall (fun g => goal_frame g = get_param_str ps "goal_frame_id" "map")
                   (sent_goals (trace (dispatched goal rest w)))).
    { unfold dispatched. cbn [node trace]. rewrite set_waypoints_config.
      split; [exact Hc|]. rewrite sent_goals_app. apply Forall_app. split; [exact Hg|].
      cbn. constructor; [|constructor].
      apply config_frame_id in Hc. unfold goal_frame, goal_of. cbn. exact Hc. }
    unfold after_pass.
    destruct (PrimFloat.ltb 0 (distance_tolerance (node w))); [exact Hd|].
    destruct Hd as [Hd1 Hd2].
    destruct (sleep_error (wait_duration (node w))).
    + destruct (waited_frame (dispatched goal rest w)) as (_ & Hc' & _).
      rewrite sent_goals_waited. split; [congruence|exact Hd2].
    + destruct (settle_world_frame (dispatched goal rest w)) as (Hc' & _).
      rewrite sent_goals_settle_world. split; [congruence|exact Hd2].
  - split; [reflexivity|]. constructor.
Qed.

(** ** The snapshot and the queue *)

Lemma latched_app_none (tr evs : list Event) :
  snapshots evs = [] -> latched (tr ++ evs) = latched tr.
Proof. intros H. unfold latched. now rewrite snapshots_app, H, app_nil_r. Qed.

Lemma latched_app_last (tr evs : list Event) (l : list PoseArray.t) (pa : PoseArray.t) :
  snapshots evs = l ++ [pa] -> latched (tr ++ evs) = Some pa.
Proof.
  intros H. unfold latched. rewrite snapshots_app, H, app_assoc. apply last_snoc.
Qed.

Lemma in_sync_ext (w w' : World) :
  latched (trace w') = latched (trace w) ->
  waypoints (node w') = waypoints (node w) ->
  in_sync w -> in_sync w'.
Proof. unfold in_sync. intros Hl Hq. now rewrite Hl, Hq. Qed.

Lemma in_sync_published (w : World) (pa : PoseArray.t) :
  latched (trace w) = Some pa ->
  PoseArray.poses pa = queue_poses (waypoints (node w)) ->
  in_sync w.
Proof. unfold in_sync. intros Hl Hp. now rewrite Hl. Qed.

Lemma env_step_in_sync (a : EnvAction) (w : World) :
  in_sync w -> in_sync (snd (env_step a w)).
Proof.
  intros Hw. destruct a as [pose|point| | |name value]; cbn [env_step].
  - rewrite bind_gets. destruct (waypoints_are_poses (node w)); [|exact Hw].
    unfold in_other_thread. rewrite pose_cb_eq. cbn [snd].
    eapply in_sync_published.
    + cbn [trace]. now apply (latched_app_last _ _ []).
    + cbn [node]. now rewrite waypoints_set_waypoints.
  - rewrite bind_gets. destruct (waypoints_are_poses (node w)); [exact Hw|].
    unfold in_other_thread. rewrite point_cb_eq. cbn [snd].
    eapply in_sync_published.
    + cbn [trace]. now apply (latched_app_last _ _ []).
    + cbn [node]. now rewrite waypoints_set_waypoints.
  - unfold in_other_thread. rewrite make_path_ready_eq. cbn [snd].
    apply (in_sync_ext w); [reflexivity|now destruct (node w)|exact Hw].
  - unfold in_other_thread. rewrite do_path_reset_eq. cbn [snd].
    destruct (waypoints (node w)) eqn:E.
    + apply (in_sync_ext w); [|cbn [node]; now rewrite waypoints_set_waypoints|exact Hw].
      cbn [trace]. now apply latched_app_none.
    + eapply in_sync_published.
      * cbn [trace]. now apply (latched_app_last _ _ []).
      * cbn [node]. now rewrite waypoints_set_waypoints.
  - exact Hw.
Qed.

Lemma env_steps_in_sync (acts : list EnvAction) :
  forall w : World, in_sync w -> in_sync (snd (env_steps acts w)).
Proof.
  induction acts as [|a acts IH]; intros w Hw; [exact Hw|].
  cbn [env_steps]. destruct (env_step_returns a w) as [w1 H1].
  rewrite (bind_returned _ _ _ _ _ H1). apply IH.
  pose proof (env_step_in_sync a w Hw) as H. now rewrite H1 in H.
Qed.

(** X3.  If the latched snapshot shows the queue as it is (same poses,
    same order; or nothing published yet and nothing queued), it still
    does after any sequence of callbacks and service calls: each ingestion
    republishes the whole queue, a Reset of a non-empty queue republishes
    the empty one, and a Reset of an empty queue, arming and parameter
    changes touch neither. *)
Theorem handlers_keep_snapshot_in_sync (acts : list EnvAction) (w : World) :
  in_sync w -> in_sync (snd (env_steps acts w)).
Proof. apply env_steps_in_sync. Qed.

Lemma handlers_keep_snapshot_in_sync_witness :
  in_sync fresh /\
  in_sync (snd (env_steps
                  [EnvPose (waypoint_at 1 1); EnvPathReady; EnvPose (waypoint_at 2 2);
                   EnvPathReset; EnvPathReset; EnvSetParam "~goal_frame_id" "odom";
                   EnvPose (waypoint_at 3 3)] fresh)).
Proof.
  assert (H : in_sync fresh) by reflexivity.
  split; [exact H|].
  apply (handlers_keep_snapshot_in_sync _ fresh H).
Defined.

Lemma blocking_in_sync (e : Event) (w : World) :
  snapshot e = None -> in_sync w -> in_sync (snd (blocking e w)).
Proof.
  intros He Hw. rewrite blocking_env. apply env_steps_in_sync.
  apply (in_sync_ext w); [|reflexivity|exact Hw].
  cbn [trace]. apply latched_app_none. unfold snapshots. cbn. now rewrite He.
Qed.

(** X4.  With the distance tolerance not above zero and a settle
    duration [time.sleep] accepts, the same holds of the loop: if the
    latched snapshot shows the queue when [run] starts, it shows the queue
    when [run] stops, after any number of iterations and whatever the
    other threads did meanwhile.  (During a dispatch the snapshot still
    shows the waypoint in flight; the settle part of the iteration
    republishes the queue.) *)
Theorem run_keeps_snapshot_in_sync (iters fuel : nat) (w : World) :
  in_sync w ->
  PrimFloat.ltb 0 (distance_tolerance (node w)) = false ->
  sleep_error (wait_duration (node w)) = None ->
  in_sync (snd (run iters fuel w)).
Proof.
  intros Hw Htol Hs.
  apply (run_invariant
           (fun w0 => in_sync w0 /\ config (node w0) = config (node w))); [| | | |now split].
  - intros w0 [H0 Hc].
    destruct (blocking_frame (Sleep 1) w0) as (_ & Hc' & _).
    split; [now apply blocking_in_sync|congruence].
  - intros w0 [H0 Hc] Hq. cbn [node]. rewrite set_path_ready_config. split; [|exact Hc].
    apply (in_sync_ext w0); [|now destruct (node w0)|exact H0].
    cbn [trace]. now apply latched_app_none.
  - intros w0 [H0 Hc]. split; [|exact Hc].
    apply (in_sync_ext w0); [|reflexivity|exact H0].
    unfold following. cbn [trace]. now apply latched_app_none.
  - intros w0 goal rest [H0 Hc] Hq. unfold after_pass.
    rewrite (config_distance_tolerance _ _ Hc), Htol.
    rewrite (config_wait_duration _ _ Hc), Hs.
    destruct (settle_world_frame (dispatched goal rest w0)) as (Hc' & _).
    split.
    + unfold settle_world. eapply in_sync_published.
      * cbn [trace]. now apply (latched_app_last _ _ []).
      * reflexivity.
    + rewrite Hc'. unfold dispatched. cbn [node]. now rewrite set_waypoints_config.
Qed.

Lemma run_keeps_snapshot_in_sync_witness :
  (in_sync busy_after_drain /\
   PrimFloat.ltb 0 (distance_tolerance (node busy_after_drain)) = false /\
   sleep_error (wait_duration (node busy_after_drain)) = None) /\
  in_sync (snd (run 5 2 busy_after_drain)).
Proof.
  assert (H : in_sync busy_after_drain) by reflexivity.
  split; [split; [exact H|split; reflexivity]|].
  apply (run_keeps_snapshot_in_sync 5 2 busy_after_drain H); reflexivity.
Defined.

(** ** A node that is never armed *)

(** X5.  A node that nobody arms never sends a goal: whatever the
    parameter server holds, whatever waypoints arrive and whatever resets
    are issued, every iteration of [main]'s loop is an idle sleep, the
    loop returns at shutdown without an exception, and the armed flag is
    still clear. *)
Theorem unarmed_node_sends_nothing (ps : ParamServer) (sched : list (list EnvAction))
  (iters fuel : nat) :
  no_arm sched ->
  exists w',
    main ps sched iters fuel = (Returned tt, w') /\
    path_ready (node w') = false /\
    sent_goals (trace w') = [].
Proof.
  intros Hna. unfold main.
  destruct (run_idle iters fuel (startup ps sched)) as (w' & Hrun & Hr & Hc);
    [exact Hna|reflexivity|].
  exists w'. split; [exact Hrun|]. split; [exact Hr|].
  apply (sent_goals_same_client_calls _ (trace (startup ps sched))). exact Hc.
Qed.

Lemma unarmed_node_sends_nothing_witness :
  no_arm [[EnvPose (waypoint_at 1 1)]; [EnvPathReset; EnvPose (waypoint_at 2 2)]] /\
  exists w',
    main tolerance_params
      [[EnvPose (waypoint_at 1 1)]; [EnvPathReset; EnvPose (waypoint_at 2 2)]] 4 0 =
      (Returned tt, w') /\
    path_ready (node w') = false /\
    sent_goals (trace w') = [].
Proof.
  assert (H : no_arm [[EnvPose (waypoint_at 1 1)]; [EnvPathReset; EnvPose (waypoint_at 2 2)]])
    by (repeat constructor; discriminate).
  split; [exact H|].
  apply (unarmed_node_sends_nothing tolerance_params _ 4 0 H).
Defined.

(** ** The loop ends when the arrivals do *)

Lemma env_step_queue_length (a : EnvAction) (w : World) :
  length (waypoints (node (snd (env_step a w)))) <=
  length (waypoints (node w)) + (if is_arrival a then 1 else 0).
Proof.
  destruct a as [pose|point| | |name value]; cbn [env_step is_arrival].
  - rewrite bind_gets. destruct (waypoints_are_poses (node w)); [|cbn; lia].
    unfold in_other_thread. rewrite pose_cb_eq. cbn [snd node].
    rewrite waypoints_set_waypoints, length_app. cbn. lia.
  - rewrite bind_gets. destruct (waypoints_are_poses (node w)); [cbn; lia|].
    unfold in_other_thread. rewrite point_cb_eq. cbn [snd node].
    rewrite waypoints_set_waypoints, length_app. cbn. lia.
  - unfold in_other_thread. rewrite make_path_ready_eq. cbn [snd node].
    destruct (node w); cbn; lia.
  - unfold in_other_thread. rewrite do_path_reset_eq. cbn [snd node].
    rewrite waypoints_set_waypoints. cbn. lia.
  - cbn. lia.
Qed.

Lemma env_steps_queue_length (acts : list EnvAction) :
  forall w : World,
    length (waypoints (node (snd (env_steps acts w)))) <=
    length (waypoints (node w)) + length (List.filter is_arrival acts).
Proof.
  induction acts as [|a acts IH]; intros w; [cbn; lia|].
  cbn [env_steps]. destruct (env_step_returns a w) as [w1 H1].
  rewrite (bind_returned _ _ _ _ _ H1).
  pose proof (env_step_queue_length a w) as Ha. rewrite H1 in Ha. cbn [snd] in Ha.
  specialize (IH w1). cbn [List.filter]. destruct (is_arrival a); cbn [length]; lia.
Qed.

Lemma blocking_measure (e : Event) (w : World) :
  length (waypoints (node (snd (blocking e w)))) + arrivals (pending (snd (blocking e w))) <=
  length (waypoints (node w)) + arrivals (pending w).
Proof.
  destruct (blocking_frame e w) as (Hp & _ & _). rewrite Hp, blocking_env.
  match goal with |- context [env_steps ?acts ?w0] =>
    pose proof (env_steps_queue_length acts w0) as H end.
  cbn [node] in H.
  destruct (pending w) as [|acts sch]; cbn [hd tail arrivals List.filter length] in *; lia.
Qed.

Lemma settle_world_measure (w : World) :
  length (waypoints (node (settle_world w))) + arrivals (pending (settle_world w)) <=
  length (waypoints (node w)) + arrivals (pending w).
Proof.
  unfold settle_world. cbn [node pending].
  pose proof (blocking_measure WaitForResult w) as H1.
  pose proof (blocking_measure (Sleep (wait_duration (node (waited w)))) (waited w)) as H2.
  assert (H3 : length (waypoints (node (waited w))) + arrivals (pending (waited w)) =
               length (waypoints (node (snd (blocking WaitForResult w)))) +
               arrivals (pending (snd (blocking WaitForResult w)))) by reflexivity.
  lia.
Qed.

Lemma drain_returns (fuel : nat) :
  forall w : World,
    PrimFloat.ltb 0 (distance_tolerance (node w)) = false ->
    sleep_error (wait_duration (node w)) = None ->
    length (waypoints (node w)) + arrivals (pending w) <= fuel ->
    exists w',
      drain fuel w = (Returned tt, w') /\
      length (sent_goals (trace w')) <=
        length (sent_goals (trace w)) + length (waypoints (node w)) + arrivals (pending w).
Proof.
  induction fuel as [|fuel IH]; intros w Htol Hsl Hm;
    destruct (waypoints (node w)) as [|goal rest] eqn:E;
    try (exists w; rewrite drain_nil by assumption; split; [reflexivity|lia]).
  - cbn [length] in Hm. lia.
  - rewrite (drain_pass _ _ _ _ E), Htol, Hsl. unfold after_pass. rewrite Htol, Hsl.
    assert (Hq0 : waypoints (node (dispatched goal rest w)) = rest)
      by apply waypoints_set_waypoints.
    assert (Hp0 : pending (dispatched goal rest w) = pending w) by reflexivity.
    assert (Hc0 : config (node (dispatched goal rest w)) = config (node w))
      by apply set_waypoints_config.
    assert (Hg0 : length (sent_goals (trace (dispatched goal rest w))) =
                  S (length (sent_goals (trace w)))).
    { unfold dispatched. cbn [trace]. rewrite sent_goals_app, length_app. cbn. lia. }
    set (wd := dispatched goal rest w) in *.
    pose proof (settle_world_measure wd) as Hs. rewrite Hq0, Hp0 in Hs.
    destruct (settle_world_frame wd) as (Hc & _).
    pose proof (sent_goals_settle_world wd) as Hg.
    cbn [length] in Hm.
    destruct (IH (settle_world wd)) as (w' & Hrun & Hlen).
    + rewrite (config_distance_tolerance _ _ Hc), (config_distance_tolerance _ _ Hc0).
      exact Htol.
    + rewrite (config_wait_duration _ _ Hc), (config_wait_duration _ _ Hc0).
      exact Hsl.
    + lia.
    + exists w'. split; [exact Hrun|]. rewrite Hg in Hlen. cbn [length]. lia.
Qed.

(** X6.  With the distance tolerance not above zero and a settle
    duration [time.sleep] accepts, an iteration of the loop always returns
    once the arrivals stop: for a queue of n waypoints and a schedule that
    can still deliver m more (poses, points, resets, arming and parameter
    changes in any order), [run_once] returns normally within n + m passes
    of its [while] loop, having sent at most n + m goals. *)
Theorem run_once_returns_when_arrivals_stop (fuel : nat) (w : World) :
  PrimFloat.ltb 0 (distance_tolerance (node w)) = false ->
  sleep_error (wait_duration (node w)) = None ->
  length (waypoints (node w)) + arrivals (pending w) <= fuel ->
  exists w',
    run_once fuel w = (Returned tt, w') /\
    length (sent_goals (trace w')) <=
      length (sent_goals (trace w)) + length (waypoints (node w)) + arrivals (pending w).
Proof.
  intros Htol Hs Hm. destruct (path_ready (node w)) eqn:Hr.
  - destruct (waypoints (node w)) eqn:E.
    + rewrite run_once_exhausted by assumption. eexists. split; [reflexivity|].
      cbn [trace]. rewrite sent_goals_app, length_app. cbn. lia.
    + rewrite run_once_following by (rewrite ?E; done).
      destruct (drain_returns fuel (following w)) as (w' & Hrun & Hlen).
      * exact Htol.
      * exact Hs.
      * unfold following. cbn [node pending]. now rewrite E.
      * exists w'. split; [exact Hrun|].
        unfold following in Hlen. cbn [node pending trace] in Hlen.
        rewrite sent_goals_app, length_app, E in Hlen. cbn [sent_goals omap length] in Hlen.
        cbn in Hlen. cbn [length]. lia.
  - rewrite run_once_idle, time_sleep_1, blocking_returned by assumption.
    eexists. split; [reflexivity|].
    rewrite sent_goals_blocking by reflexivity. lia.
Qed.

Lemma run_once_returns_when_arrivals_stop_witness :
  (PrimFloat.ltb 0 (distance_tolerance (node arrivals_in_flight)) = false /\
   sleep_error (wait_duration (node arrivals_in_flight)) = None /\
   length (waypoints (node arrivals_in_flight)) + arrivals (pending arrivals_in_flight) <= 4) /\
  exists w',
    run_once 4 arrivals_in_flight = (Returned tt, w') /\
    length (sent_goals (trace w')) <=
      length (sent_goals (trace arrivals_in_flight)) +
      length (waypoints (node arrivals_in_flight)) + arrivals (pending arrivals_in_flight).
Proof.
  assert (Hm : length (waypoints (node arrivals_in_flight)) +
               arrivals (pending arrivals_in_flight) <= 4) by (vm_compute; lia).
  split; [split; [reflexivity|split; [reflexivity|exact Hm]]|].
  apply (run_once_returns_when_arrivals_stop 4 arrivals_in_flight);
    [reflexivity|reflexivity|exact Hm].
Defined.

(** ** Ingestion of poses *)

Lemma pose_cbs_eq (poses : list PoseWithCovarianceStamped.t) :
  forall w : World,
    exists w',
      pose_cbs poses w = (Returned tt, w') /\
      params w' = params w /\
      pending w' = pending w /\
      node w' = set_waypoints (waypoints (node w) ++ poses) (node w) /\
      client_calls (trace w') = client_calls (trace w) /\
      snapshots (trace w') =
        snapshots (trace w) ++
        map (fun k => toPoseArray (params w) (waypoints (node w) ++ take k poses))
          (seq 1 (length poses)).
Proof.
  induction poses as [|pose rest IH]; intros w.
  - exists w. cbn [pose_cbs length seq map]. rewrite !app_nil_r, set_waypoints_same.
    repeat split.
  - cbn [pose_cbs]. erewrite bind_returned by apply pose_cb_eq.
    match goal with |- context [pose_cbs rest ?w1] =>
      destruct (IH w1) as (w' & Hrun & Hps & Hp & Hn & Hc & Hs) end.
    cbn [params node pending trace] in Hps, Hp, Hn, Hc, Hs.
    rewrite waypoints_set_waypoints in Hn, Hs.
    exists w'. split; [exact Hrun|]. split; [exact Hps|]. split; [exact Hp|].
    split; [|split].
    + rewrite Hn, set_waypoints_set_waypoints, <- app_assoc. reflexivity.
    + rewrite Hc. now apply client_calls_snoc_other.
    + rewrite Hs, snapshots_app. cbn [length seq map].
      rewrite <- (seq_shift (length rest) 1), map_map, <- app_assoc.
      f_equal. cbn -[toPoseArray]. f_equal. apply map_ext. intros k.
      now rewrite <- app_assoc.
Qed.

(** X7.  A run of pose ingestions never raises.  It appends the poses to
    whatever is queued, unchanged (header and covariance included) and in
    arrival order, touches nothing else of the node, and publishes one
    snapshot per pose: the k-th shows the poses already queued followed by
    those of the first k arrivals. *)
Theorem pose_cbs_snapshots (poses : list PoseWithCovarianceStamped.t) (w : World) :
  exists w' snaps,
    pose_cbs poses w = (Returned tt, w') /\
    node w' = set_waypoints (waypoints (node w) ++ poses) (node w) /\
    snapshots (trace w') = snapshots (trace w) ++ snaps /\
    Forall2
      (fun k pa => PoseArray.poses pa = queue_poses (waypoints (node w) ++ take k poses))
      (seq 1 (length poses)) snaps.
Proof.
  destruct (pose_cbs_eq poses w) as (w' & Hrun & _ & _ & Hn & _ & Hs).
  eexists. eexists. split; [exact Hrun|]. split; [exact Hn|]. split; [exact Hs|].
  apply Forall2_fmap_r, Forall_Forall2_diag, Forall_forall. intros k _. reflexivity.
Qed.

(** X8.  [point_cb] is [pose_cb] after [toPoseWithCov]: a point message
    has exactly the effect of the pose message it is converted to, down to
    the log line. *)
Theorem point_cb_is_pose_cb (point : PointStamped.t) (w : World) :
  point_cb point w = pose_cb (toPoseWithCov point) w.
Proof. rewrite point_cb_eq, pose_cb_eq. reflexivity. Qed.

(** ** From ingestion to dispatch *)

Lemma pose_of_goal_of (f : string) (pose : PoseWithCovarianceStamped.t) :
  PoseStamped.pose (MoveBaseGoal.target_pose (goal_of f pose)) =
  PoseWithCovariance.pose (PoseWithCovarianceStamped.pose pose).
Proof.
  unfold goal_of. cbn.
  now destruct (PoseWithCovariance.pose (PoseWithCovarianceStamped.pose pose)).
Qed.

(** X9.  First in, first out, end to end.  Poses ingested, then the arm
    command, then one iteration of the loop (tolerance not above zero, a
    settle duration [time.sleep] accepts, nobody acting during the
    dispatches): the iteration returns with the
    queue empty, and the goals it sent are those of the waypoints that were
    queued followed by those of the poses in arrival order, each goal
    holding the position and orientation of its waypoint. *)
Theorem ingest_arm_dispatch_in_order (poses : list PoseWithCovarianceStamped.t)
  (fuel : nat) (w : World) :
  PrimFloat.ltb 0 (distance_tolerance (node w)) = false ->
  sleep_error (wait_duration (node w)) = None ->
  1 <= length (waypoints (node w) ++ poses) ->
  length (waypoints (node w) ++ poses) <= fuel ->
  quiet_during (2 * length (waypoints (node w) ++ poses)) w ->
  exists w',
    (_ ← pose_cbs poses; _ ← make_path_ready; run_once fuel) w = (Returned tt, w') /\
    waypoints (node w') = [] /\
    sent_goals (trace w') =
      sent_goals (trace w) ++
      map (goal_of (frame_id (node w))) (waypoints (node w) ++ poses) /\
    map (fun g => PoseStamped.pose (MoveBaseGoal.target_pose g))
      (map (goal_of (frame_id (node w))) (waypoints (node w) ++ poses)) =
      queue_poses (waypoints (node w) ++ poses).
Proof.
  intros Htol Hsl Hlo Hhi Hquiet.
  destruct (pose_cbs_eq poses w) as (w1 & Hrun1 & Hps1 & Hp1 & Hn1 & Hc1 & _).
  rewrite (bind_returned _ _ _ _ _ Hrun1).
  rewrite (bind_returned _ _ _ _ _ (make_path_ready_eq w1)).
  set (w2 := mkWorld (params w1) (set_path_ready true (node w1)) (pending w1) (trace w1)).
  assert (Hq2 : waypoints (node w2) = waypoints (node w) ++ poses).
  { unfold w2. cbn [node]. rewrite Hn1. now destruct (node w). }
  assert (Hcfg : config (node w2) = config (node w)).
  { unfold w2. cbn [node]. now rewrite set_path_ready_config, Hn1, set_waypoints_config. }
  destruct (run_once_quiet fuel w2) as (w' & Hrun & _ & _ & Hn & Htr).
  - rewrite Hq2. unfold quiet_during, w2. cbn [pending]. rewrite Hp1. exact Hquiet.
  - unfold w2. cbn [node]. now destruct (node w1).
  - now rewrite (config_distance_tolerance _ _ Hcfg).
  - now rewrite (config_wait_duration _ _ Hcfg).
  - now rewrite Hq2.
  - now rewrite Hq2.
  - exists w'. split; [exact Hrun|]. split; [rewrite Hn; apply waypoints_set_waypoints|].
    split.
    + rewrite Htr, sent_goals_app.
      change (sent_goals (Log ?lvl ?m :: ?l)) with (sent_goals l).
      rewrite sent_goals_drain_events, Hq2, (config_frame_id _ _ Hcfg).
      f_equal. unfold w2. cbn [trace]. now apply sent_goals_same_client_calls.
    + rewrite map_map. unfold queue_poses. apply map_ext. intros pose.
      apply pose_of_goal_of.
Qed.

Lemma ingest_arm_dispatch_in_order_witness :
  (PrimFloat.ltb 0 (distance_tolerance (node fresh)) = false /\
   sleep_error (wait_duration (node fresh)) = None /\
   1 <= length (waypoints (node fresh) ++ [waypoint_at 1 1; waypoint_at 2 2]) /\
   length (waypoints (node fresh) ++ [waypoint_at 1 1; waypoint_at 2 2]) <= 2 /\
   quiet_during (2 * length (waypoints (node fresh) ++ [waypoint_at 1 1; waypoint_at 2 2]))
     fresh) /\
  exists w',
    (_ ← pose_cbs [waypoint_at 1 1; waypoint_at 2 2]; _ ← make_path_ready; run_once 2) fresh =
      (Returned tt, w') /\
    waypoints (node w') = [] /\
    sent_goals (trace w') =
      sent_goals (trace fresh) ++
      map (goal_of (frame_id (node fresh)))
        (waypoints (node fresh) ++ [waypoint_at 1 1; waypoint_at 2 2]) /\
    map (fun g => PoseStamped.pose (MoveBaseGoal.target_pose g))
      (map (goal_of (frame_id (node fresh)))
         (waypoints (node fresh) ++ [waypoint_at 1 1; waypoint_at 2 2])) =
      queue_poses (waypoints (node fresh) ++ [waypoint_at 1 1; waypoint_at 2 2]).
Proof.
  assert (Hlo : 1 <= length (waypoints (node fresh) ++ [waypoint_at 1 1; waypoint_at 2 2]))
    by (vm_compute; lia).
  assert (Hhi : length (waypoints (node fresh) ++ [waypoint_at 1 1; waypoint_at 2 2]) <= 2)
    by (vm_compute; lia).
  assert (Hquiet : quiet_during
            (2 * length (waypoints (node fresh) ++ [waypoint_at 1 1; waypoint_at 2 2])) fresh)
    by (vm_compute; constructor).
  split; [repeat split; try assumption; reflexivity|].
  apply (ingest_arm_dispatch_in_order [waypoint_at 1 1; waypoint_at 2 2] 2 fresh);
    try assumption; reflexivity.
Defined.

(** ** Waypoints and resets that arrive during a dispatch *)

Lemma settle_world_arrival (w : World) pose sched :
  waypoints_are_poses (node w) = true ->
  pending w = [EnvPose pose] :: sched ->
  quiet_schedule 1 sched ->
  pending (settle_world w) = drop 1 sched /\
  params (settle_world w) = params w /\
  node (settle_world w) = set_waypoints (waypoints (node w) ++ [pose]) (node w).
Proof.
  intros Hmode Hp Hquiet. unfold settle_world, waited, wait_for_result.
  cbn [pending params node info emit snd].
  assert (H1 : snd (blocking WaitForResult w) =
               snd (pose_cb pose
                      (mkWorld (params w) (node w) sched (trace w ++ [WaitForResult])))).
  { rewrite (blocking_cons _ _ _ _ Hp). cbn [env_steps env_step].
    unfold mbind at 1. unfold M_bind at 1. rewrite bind_gets. cbn [node].
    rewrite Hmode. unfold in_other_thread. reflexivity. }
  rewrite H1, pose_cb_eq. cbn [snd node].
  rewrite blocking_quiet by exact Hquiet. cbn [snd pending params node].
  repeat split.
Qed.

(** X10.  With a settle duration [time.sleep] accepts, a pose that
    arrives while a goal is in flight is dispatched by the same iteration,
    after the waypoints already queued and without a new arm command: the
    [while] loop tests the queue again after each dispatch. *)
Theorem arrival_in_flight_is_dispatched (fuel : nat) (w : World) goal rest pose sched :
  path_ready (node w) = true ->
  PrimFloat.ltb 0 (distance_tolerance (node w)) = false ->
  sleep_error (wait_duration (node w)) = None ->
  waypoints_are_poses (node w) = true ->
  waypoints (node w) = goal :: rest ->
  pending w = [EnvPose pose] :: sched ->
  quiet_schedule (1 + 2 * length (rest ++ [pose])) sched ->
  length (rest ++ [pose]) <= fuel ->
  exists w',
    run_once (S fuel) w = (Returned tt, w') /\
    waypoints (node w') = [] /\
    sent_goals (trace w') =
      sent_goals (trace w) ++ map (goal_of (frame_id (node w))) (goal :: rest ++ [pose]).
Proof.
  intros Hr Htol Hsl Hmode Hq Hp Hquiet Hfuel.
  apply quiet_schedule_add in Hquiet. destruct Hquiet as [Hq1 Hq2].
  rewrite run_once_following by (rewrite ?Hq; done).
  rewrite (drain_wait fuel (following w) goal rest Hq Htol), settle_eq.
  set (wd := dispatched goal rest (following w)).
  assert (Hsd : sleep_error (wait_duration (node wd)) = None)
    by (unfold wd; cbn; destruct (node w); exact Hsl).
  rewrite Hsd.
  destruct (settle_world_arrival wd pose sched) as (Hp2 & Hps2 & Hn2);
    [unfold wd; cbn; now destruct (node w)|exact Hp|exact Hq1|].
  assert (Hqd : waypoints (node wd) = rest) by apply waypoints_set_waypoints.
  assert (Hcd : config (node wd) = config (node w)) by apply set_waypoints_config.
  rewrite Hqd in Hn2.
  assert (Hc2 : config (node (settle_world wd)) = config (node w))
    by (rewrite Hn2, set_waypoints_config; exact Hcd).
  destruct (drain_quiet (rest ++ [pose]) fuel (settle_world wd))
    as (w' & Hrun & _ & _ & Hn & Htr).
  - unfold quiet_during. rewrite Hp2. exact Hq2.
  - rewrite Hn2. apply waypoints_set_waypoints.
  - now rewrite (config_distance_tolerance _ _ Hc2).
  - now rewrite (config_wait_duration _ _ Hc2).
  - exact Hfuel.
  - exists w'. split; [exact Hrun|]. split; [rewrite Hn; apply waypoints_set_waypoints|].
    rewrite Htr, sent_goals_app, sent_goals_drain_events, sent_goals_settle_world.
    rewrite (config_frame_id _ _ Hc2).
    unfold wd, dispatched, following. cbn [trace node].
    rewrite <- app_assoc, sent_goals_app. cbn [map app]. cbn -[goal_of].
    now rewrite <- app_assoc.
Qed.

Lemma arrival_in_flight_is_dispatched_witness :
  (path_ready (node arrival_then_quiet) = true /\
   PrimFloat.ltb 0 (distance_tolerance (node arrival_then_quiet)) = false /\
   sleep_error (wait_duration (node arrival_then_quiet)) = None /\
   waypoints_are_poses (node arrival_then_quiet) = true /\
   waypoints (node arrival_then_quiet) = [waypoint_at 1 1; waypoint_at 2 2] /\
   pending arrival_then_quiet = [[EnvPose (waypoint_at 3 3)]] /\
   quiet_schedule (1 + 2 * length ([waypoint_at 2 2] ++ [waypoint_at 3 3])) [] /\
   length ([waypoint_at 2 2] ++ [waypoint_at 3 3]) <= 2) /\
  exists w',
    run_once 3 arrival_then_quiet = (Returned tt, w') /\
    waypoints (node w') = [] /\
    sent_goals (trace w') =
      sent_goals (trace arrival_then_quiet) ++
      map (goal_of (frame_id (node arrival_then_quiet)))
        (waypoint_at 1 1 :: [waypoint_at 2 2] ++ [waypoint_at 3 3]).
Proof.
  assert (Hquiet : quiet_schedule (1 + 2 * length ([waypoint_at 2 2] ++ [waypoint_at 3 3])) [])
    by (vm_compute; constructor).
  assert (Hfuel : length ([waypoint_at 2 2] ++ [waypoint_at 3 3]) <= 2) by (vm_compute; lia).
  split; [repeat split; try assumption; reflexivity|].
  apply (arrival_in_flight_is_dispatched 2 arrival_then_quiet (waypoint_at 1 1)
           [waypoint_at 2 2] (waypoint_at 3 3) []); try assumption; reflexivity.
Defined.

(** X11.  With a settle duration [time.sleep] accepts, a Reset that
    arrives while a goal is in flight ends the traversal and, by the next iteration, the arming too: the iteration
    returns after that one dispatch, the following one finds the queue
    empty and clears the armed flag, and from then on, until somebody arms
    the node again, the loop only sleeps, whatever waypoints arrive: the
    goal in flight is the last one sent. *)
Theorem reset_in_flight_disarms (iters fuel : nat) (w : World) goal rest sched :
  path_ready (node w) = true ->
  PrimFloat.ltb 0 (distance_tolerance (node w)) = false ->
  sleep_error (wait_duration (node w)) = None ->
  waypoints (node w) = goal :: rest ->
  pending w = [EnvPathReset] :: [] :: sched ->
  no_arm sched ->
  exists w',
    run (S (S iters)) (S fuel) w = (Returned tt, w') /\
    path_ready (node w') = false /\
    sent_goals (trace w') = sent_goals (trace w) ++ [goal_of (frame_id (node w)) goal].
Proof.
  intros Hr Htol Hsl Hq Hp Hna.
  set (w1 := settled_after_reset sched (dispatched goal rest (following w))).
  assert (Hrun1 : run_once (S fuel) w = (Returned tt, w1)).
  { rewrite run_once_following by (rewrite ?Hq; done).
    rewrite (drain_wait fuel (following w) goal rest Hq Htol).
    rewrite (settle_reset _ _ sched);
      [now apply drain_nil|exact Hp|cbn; destruct (node w); exact Hsl]. }
  assert (Hq1 : waypoints (node w1) = []) by reflexivity.
  assert (Hr1 : path_ready (node w1) = true).
  { unfold w1, settled_after_reset, dispatched, following. cbn [node].
    rewrite <- Hr. now destruct (node w). }
  assert (Hg1 : sent_goals (trace w1) =
                sent_goals (trace w) ++ [goal_of (frame_id (node w)) goal]).
  { unfold w1, settled_after_reset, dispatched, following.
    cbn -[toPoseArray reset_events].
    rewrite !sent_goals_app. cbn -[toPoseArray].
    destruct rest; cbn -[toPoseArray]; now rewrite !app_nil_r. }
  pose proof (run_once_exhausted (S fuel) w1 Hr1 Hq1) as Hrun2.
  set (w2 := mkWorld (params w1) (set_path_ready false (node w1)) (pending w1)
               (trace w1 ++ [Log WARN (Text "No more waypoints to follow.")])) in Hrun2.
  destruct (run_idle iters (S fuel) w2) as (w' & Hrun3 & Hr3 & Hc3);
    [exact Hna|reflexivity|].
  exists w'. split; [|split; [exact Hr3|]].
  - change (run (S (S iters)) (S fuel))
      with (_ ← run_once (S fuel); _ ← run_once (S fuel); run iters (S fuel)).
    rewrite (bind_returned _ _ _ _ _ Hrun1), (bind_returned _ _ _ _ _ Hrun2). exact Hrun3.
  - rewrite (sent_goals_same_client_calls _ _ Hc3). unfold w2. cbn [trace].
    rewrite sent_goals_app, Hg1. cbn. now rewrite app_nil_r.
Qed.

Lemma reset_in_flight_disarms_witness :
  (path_ready (node reset_then_arrival) = true /\
   PrimFloat.ltb 0 (distance_tolerance (node reset_then_arrival)) = false /\
   sleep_error (wait_duration (node reset_then_arrival)) = None /\
   waypoints (node reset_then_arrival) = [waypoint_at 1 1; waypoint_at 2 2] /\
   pending reset_then_arrival = [[EnvPathReset]; []; [EnvPose (waypoint_at 3 3)]] /\
   no_arm [[EnvPose (waypoint_at 3 3)]]) /\
  exists w',
    run 4 1 reset_then_arrival = (Returned tt, w') /\
    path_ready (node w') = false /\
    sent_goals (trace w') =
      sent_goals (trace reset_then_arrival) ++
      [goal_of (frame_id (node reset_then_arrival)) (waypoint_at 1 1)].
Proof.
  assert (Hna : no_arm [[EnvPose (waypoint_at 3 3)]]) by (repeat constructor; discriminate).
  split; [repeat split; try assumption; reflexivity|].
  apply (reset_in_flight_disarms 2 0 reset_then_arrival (waypoint_at 1 1)
           [waypoint_at 2 2] [[EnvPose (waypoint_at 3 3)]]); try assumption; reflexivity.
Defined.

(** ** The two names of the goal frame *)

(** X12.  [goal_frame_id] and [~goal_frame_id] are two keys of the
    parameter server.  Setting the first decides the frame the node loads
    (and sends its goals in) and leaves the frame of the snapshots as it
    was; setting the second decides the frame of the snapshots and leaves
    the frame the node loads as it was. *)
Theorem goal_frame_keys_are_independent (ps : ParamServer) (value : string)
  (l : list PoseWithCovarianceStamped.t) :
  frame_id (__init__ (set_param_str ps "goal_frame_id" value)) = value /\
  Header.frame_id (PoseArray.header (toPoseArray (set_param_str ps "goal_frame_id" value) l)) =
    Header.frame_id (PoseArray.header (toPoseArray ps l)) /\
  Header.frame_id (PoseArray.header (toPoseArray (set_param_str ps "~goal_frame_id" value) l)) =
    value /\
  frame_id (__init__ (set_param_str ps "~goal_frame_id" value)) = frame_id (__init__ ps).
Proof.
  unfold __init__, toPoseArray, get_param_str, set_param_str.
  cbn [frame_id PoseArray.header Header.frame_id Header.with_frame_id str_params].
  repeat split.
  - now rewrite lookup_insert_eq.
  - now rewrite lookup_insert_ne.
  - now rewrite lookup_insert_eq.
  - now rewrite lookup_insert_ne.
Qed.

(** ** The two commands, repeated *)

(** X13.  Both commands are idempotent on the node.  A second arm command
    changes nothing at all.  A second Reset leaves the node and the
    snapshots published as the first left them: all it adds is the cancel
    message and its two warnings. *)
Theorem commands_are_idempotent (w : World) :
  snd (make_path_ready (snd (make_path_ready w))) = snd (make_path_ready w) /\
  node (snd (do_path_reset (snd (do_path_reset w)))) = node (snd (do_path_reset w)) /\
  trace (snd (do_path_reset (snd (do_path_reset w)))) =
    trace (snd (do_path_reset w)) ++ reset_events.
Proof.
  split; [|split].
  - rewrite !make_path_ready_eq. cbn [snd params node pending trace].
    now destruct (node w).
  - rewrite !do_path_reset_eq. cbn [snd node]. apply set_waypoints_set_waypoints.
  - rewrite (do_path_reset_eq (snd (do_path_reset w))).
    rewrite do_path_reset_eq. cbn [snd node trace].
    rewrite waypoints_set_waypoints. now rewrite app_nil_r.
Qed.

(** ** When the unimplemented branch is reached *)

(** X14.  With a distance tolerance above zero, an iteration of the loop
    raises exactly when the node is armed and the queue is not empty.  A
    node configured that way idles, takes waypoints and resets, and even
    survives arming on an empty queue (it warns and disarms); the
    exception comes with the first armed iteration that finds a
    waypoint. *)
Theorem run_once_raises_iff_armed_with_waypoints (fuel : nat) (w : World) :
  PrimFloat.ltb 0 (distance_tolerance (node w)) = true ->
  ((exists w', run_once (S fuel) w = (Raised not_implemented, w')) <->
   path_ready (node w) = true /\ waypoints (node w) <> []) /\
  ((exists w', run_once (S fuel) w = (Returned tt, w')) <->
   path_ready (node w) = false \/ waypoints (node w) = []).
Proof.
  intros Htol.
  destruct (path_ready (node w)) eqn:Hr; [destruct (waypoints (node w)) as [|goal rest] eqn:E|].
  - rewrite run_once_exhausted by assumption. split; split.
    + intros [w' H]. discriminate H.
    + intros [_ H]. now contradiction H.
    + intros _. now right.
    + intros _. eexists. reflexivity.
  - rewrite (run_once_tolerance fuel w goal rest Htol Hr E). split; split.
    + intros _. now split.
    + intros _. eexists. reflexivity.
    + intros [w' H]. discriminate H.
    + intros [H|H]; discriminate H.
  - rewrite run_once_idle, time_sleep_1, blocking_returned by assumption.
    split; split.
    + intros [w' H]. discriminate H.
    + intros [H _]. discriminate H.
    + intros _. now left.
    + intros _. eexists. reflexivity.
Qed.

Lemma run_once_raises_iff_armed_with_waypoints_witness :
  PrimFloat.ltb 0 (distance_tolerance (node armed_with_tolerance)) = true /\
  ((exists w', run_once 1 armed_with_tolerance = (Raised not_implemented, w')) <->
   path_ready (node armed_with_tolerance) = true /\
   waypoints (node armed_with_tolerance) <> []) /\
  ((exists w', run_once 1 armed_with_tolerance = (Returned tt, w')) <->
   path_ready (node armed_with_tolerance) = false \/
   waypoints (node armed_with_tolerance) = []).
Proof.
  split; [reflexivity|].
  apply (run_once_raises_iff_armed_with_waypoints 0 armed_with_tolerance). reflexivity.
Defined.

(** ** One goal in flight at a time *)

(** X15.  With the distance tolerance not above zero, goals are sent
    strictly one at a time under every schedule: whatever arrives and
    however long [main] runs, the calls made to the action client are, for
    each goal sent, that [send_goal] followed by one [wait_for_result]
    before anything else is asked of the client. *)
Theorem one_goal_in_flight (ps : ParamServer) (sched : list (list EnvAction))
  (iters fuel : nat) :
  PrimFloat.ltb 0 (get_param_float ps "waypoint_distance_tolerance" 0) = false ->
  client_calls (trace (snd (main ps sched iters fuel))) =
  flat_map (fun g => [SendGoal g; WaitForResult])
    (sent_goals (trace (snd (main ps sched iters fuel)))).
Proof.
  intros Htol. unfold main.
  apply (run_invariant
           (fun w => (client_calls (trace w) =
                      flat_map (fun g => [SendGoal g; WaitForResult]) (sent_goals (trace w))) /\
                     config (node w) = config (__init__ ps))); [| | | |now split].
  - intros w [Hw Hc].
    destruct (blocking_frame (Sleep 1) w) as (_ & Hc' & _).
    rewrite client_calls_blocking_other, sent_goals_blocking by reflexivity.
    split; [exact Hw|congruence].
  - intros w [Hw Hc] _. cbn [node trace]. rewrite set_path_ready_config.
    rewrite client_calls_snoc_other, sent_goals_app by reflexivity.
    cbn. rewrite app_nil_r. now split.
  - intros w [Hw Hc]. unfold following. cbn [node trace].
    rewrite client_calls_snoc_other, sent_goals_app by reflexivity.
    cbn. rewrite app_nil_r. now split.
  - intros w goal rest [Hw Hc] Hq. unfold after_pass.
    rewrite (config_distance_tolerance _ _ Hc). cbn [__init__ distance_tolerance].
    rewrite Htol.
    assert (Hd : client_calls (trace (dispatched goal rest w)) ++ [WaitForResult] =
                 flat_map (fun g => [SendGoal g; WaitForResult])
                   (sent_goals (trace (dispatched goal rest w)))).
    { unfold dispatched. cbn [trace].
      rewrite client_calls_app, sent_goals_app, flat_map_app, Hw.
      cbn. now rewrite <- app_assoc. }
    assert (Hcd : config (node (dispatched goal rest w)) = config (__init__ ps)).
    { unfold dispatched. cbn [node]. now rewrite set_waypoints_config. }
    destruct (sleep_error (wait_duration (node w))).
    + destruct (waited_frame (dispatched goal rest w)) as (_ & Hc' & Ht').
      rewrite Ht', sent_goals_waited. split; [exact Hd|congruence].
    + destruct (settle_world_frame (dispatched goal rest w)) as (Hc' & Ht').
      rewrite Ht', sent_goals_settle_world. split; [exact Hd|congruence].
Qed.

Lemma one_goal_in_flight_witness :
  PrimFloat.ltb 0 (get_param_float no_params "waypoint_distance_tolerance" 0) = false /\
  client_calls (trace (snd (main no_params
     [[EnvPose (waypoint_at 1 1); EnvPathReady]; [EnvPose (waypoint_at 2 2)]; [EnvPathReset]]
     3 4))) =
  flat_map (fun g => [SendGoal g; WaitForResult])
    (sent_goals (trace (snd (main no_params
       [[EnvPose (waypoint_at 1 1); EnvPathReady]; [EnvPose (waypoint_at 2 2)]; [EnvPathReset]]
       3 4)))).
Proof.
  split; [reflexivity|].
  apply (one_goal_in_flight no_params
           [[EnvPose (waypoint_at 1 1); EnvPathReady]; [EnvPose (waypoint_at 2 2)]; [EnvPathReset]]
           3 4).
  reflexivity.
Defined.

(** ** A settle duration that cannot be slept *)

(** X16.  [wait_duration] is read at startup and never validated.  When it
    is a value [time.sleep] refuses (NaN, negative, or beyond the range of
    nanoseconds), with the distance tolerance not above zero, the first
    armed iteration that finds a waypoint raises the exception of
    [time.sleep], and [run] stops there.  By then the goal of the first
    waypoint has been sent and waited for, and that is all the action client
    was asked.  If nobody acted during the wait, the other waypoints are
    still queued and no snapshot was published: the latched one still shows
    the waypoint just visited. *)
Theorem run_once_refused_settle (fuel : nat) (w : World) goal rest e :
  path_ready (node w) = true ->
  PrimFloat.ltb 0 (distance_tolerance (node w)) = false ->
  sleep_error (wait_duration (node w)) = Some e ->
  waypoints (node w) = goal :: rest ->
  exists w',
    run_once (S fuel) w = (Raised e, w') /\
    (forall iters, run (S iters) (S fuel) w = (Raised e, w')) /\
    client_calls (trace w') =
      client_calls (trace w) ++ [SendGoal (goal_of (frame_id (node w)) goal); WaitForResult] /\
    (quiet_during 1 w ->
     waypoints (node w') = rest /\ snapshots (trace w') = snapshots (trace w)).
Proof.
  intros Hr Htol Hs Hq.
  assert (Hrun : run_once (S fuel) w =
                 (Raised e, waited (dispatched goal rest (following w)))).
  { rewrite run_once_following by (rewrite ?Hq; done).
    rewrite (drain_pass fuel (following w) goal rest Hq). unfold after_pass.
    cbn [following node]. now rewrite Htol, Hs. }
  eexists. split; [exact Hrun|]. split; [intros iters; now apply run_raised|]. split.
  - destruct (waited_frame (dispatched goal rest (following w))) as (_ & _ & Ht).
    rewrite Ht. unfold dispatched, following. cbn [trace node].
    rewrite !client_calls_app. cbn. now rewrite app_nil_r, <- app_assoc.
  - intros Hquiet. unfold waited, wait_for_result.
    rewrite blocking_quiet by exact Hquiet.
    cbn [snd info emit node trace dispatched following].
    split; [apply waypoints_set_waypoints|].
    rewrite !snapshots_app. cbn. now rewrite !app_nil_r.
Qed.

Lemma run_once_refused_settle_witness :
  (path_ready (node armed_negative_wait) = true /\
   PrimFloat.ltb 0 (distance_tolerance (node armed_negative_wait)) = false /\
   sleep_error (wait_duration (node armed_negative_wait)) =
     Some (ValueError "sleep length must be non-negative") /\
   waypoints (node armed_negative_wait) = [waypoint_at 1 1; waypoint_at 2 2]) /\
  exists w',
    run_once 1 armed_negative_wait =
      (Raised (ValueError "sleep length must be non-negative"), w') /\
    (forall iters, run (S iters) 1 armed_negative_wait =
      (Raised (ValueError "sleep length must be non-negative"), w')) /\
    client_calls (trace w') =
      client_calls (trace armed_negative_wait) ++
      [SendGoal (goal_of (frame_id (node armed_negative_wait)) (waypoint_at 1 1));
       WaitForResult] /\
    (quiet_during 1 armed_negative_wait ->
     waypoints (node w') = [waypoint_at 2 2] /\
     snapshots (trace w') = snapshots (trace armed_negative_wait)).
Proof.
  split; [repeat split; reflexivity|].
  apply (run_once_refused_settle 0 armed_negative_wait (waypoint_at 1 1) [waypoint_at 2 2]);
    reflexivity.
Defined.
